(** * ipfs-node: a console driving an IPFS pubsub node (src/index.js)

    A shallow embedding of [src/index.js]: JavaScript strings are lists of
    UTF-16 code units, asynchronous functions are resumable tasks that
    suspend at every [await] of a node operation, and the Node.js event loop
    is a step function fed with the events of the environment (input lines,
    SIGINT, settled promises, delivered pubsub messages). *)

From Stdlib Require Import ZArith List String Ascii Bool Lia DecimalString SpecFloat.
From Stdlib Require DecimalPos DecimalZ.
Import ListNotations.
Local Open Scope Z_scope.

(** ** JavaScript strings *)

(** A JavaScript string is a sequence of 16-bit code units. *)
Definition jsstring := list Z.

Definition lit (s : string) : jsstring :=
  map (fun a => Z.of_N (N_of_ascii a)) (list_ascii_of_string s).

Fixpoint str_eqb (a b : jsstring) : bool :=
  match a, b with
  | [], [] => true
  | x :: a', y :: b' => (x =? y) && str_eqb a' b'
  | _, _ => false
  end.

(** Code units removed by [String.prototype.trim]: the WhiteSpace and
    LineTerminator productions of ECMAScript. *)
Definition isWhiteSpace (c : Z) : bool :=
  ((9 <=? c) && (c <=? 13)) || (c =? 32) || (c =? 160) || (c =? 5760)
  || ((8192 <=? c) && (c <=? 8202)) || (c =? 8232) || (c =? 8233)
  || (c =? 8239) || (c =? 8287) || (c =? 12288) || (c =? 65279).

Fixpoint trimStart (s : jsstring) : jsstring :=
  match s with
  | c :: r => if isWhiteSpace c then trimStart r else s
  | [] => []
  end.

Definition trimEnd (s : jsstring) : jsstring := rev (trimStart (rev s)).

Definition trim (s : jsstring) : jsstring := trimEnd (trimStart s).

Definition space : Z := 32.
Definition newline : Z := 10.

(** [s.split(sep)] for a separator of one code unit; the empty string splits
    into one empty piece. *)
Fixpoint split (sep : Z) (s : jsstring) : list jsstring :=
  match s with
  | [] => [[]]
  | c :: r =>
      if c =? sep then [] :: split sep r
      else match split sep r with
           | w :: ws => (c :: w) :: ws
           | [] => [[c]]
           end
  end.

(** [a.join(sep)] for an array of strings. *)
Fixpoint join (sep : Z) (l : list jsstring) : jsstring :=
  match l with
  | [] => []
  | x :: r => match r with
              | [] => x
              | _ :: _ => x ++ sep :: join sep r
              end
  end.

(** An array element read by index is a string or [undefined] ([None]). *)
Definition truthy (o : option jsstring) : bool :=
  match o with
  | Some (_ :: _) => true
  | _ => false
  end.

Definition falsy (o : option jsstring) : bool := negb (truthy o).

(** The string held by an element that a guard has found truthy. *)
Definition strval (o : option jsstring) : jsstring :=
  match o with
  | Some s => s
  | None => []
  end.

(** ** Values exchanged with the node and the console *)

Inductive error :=
| NodeError (msg : jsstring)
| TypeError.

Definition bytes := list Z.

Inductive value :=
| VUndefined
| VStrings (l : list jsstring)
| VSwarmPeers (l : list (jsstring * jsstring)).

Inductive outcome :=
| Resolved (v : value)
| Rejected (e : error).

(** The operations of the node that [index.js] awaits after start-up. *)
Inductive nodeCall :=
| pubsub_subscribe (topic : jsstring)
| pubsub_publish (topic : jsstring) (data : bytes)
| pubsub_ls
| pubsub_peers (topic : jsstring)
| swarm_peers
| node_stop.

Inductive arg :=
| AStr (s : jsstring)
| ANum (n : Z)
| AErr (e : error).

(** Synchronous effects of the handlers. *)
Inductive effect :=
| console_log (args : list arg)
| console_error (args : list arg)
| rl_prompt.

Record message := { from : jsstring; data : bytes }.

Record identity := { id_id : jsstring; id_addresses : list jsstring }.

(** ** Asynchronous functions as tasks *)

Inductive task (A : Type) : Type :=
| Ret (a : A)
| Throw (e : error)
| Emit (o : effect) (k : task A)
| Await (c : nodeCall) (k : outcome -> task A)
| Exit (code : Z).

Arguments Ret {A} a.
Arguments Throw {A} e.
Arguments Emit {A} o k.
Arguments Await {A} c k.
Arguments Exit {A} code.

Fixpoint bind {A B} (t : task A) (f : A -> task B) : task B :=
  match t with
  | Ret a => f a
  | Throw e => Throw e
  | Emit o k => Emit o (bind k f)
  | Await c k => Await c (fun r => bind (k r) f)
  | Exit code => Exit code
  end.

Fixpoint try_catch {A} (t : task A) (h : error -> task A) : task A :=
  match t with
  | Ret a => Ret a
  | Throw e => h e
  | Emit o k => Emit o (try_catch k h)
  | Await c k => Await c (fun r => try_catch (k r) h)
  | Exit code => Exit code
  end.

Notation "x <- t ;; k" := (bind t (fun x => k))
  (at level 61, t at next level, right associativity).
Notation "t ;; k" := (bind t (fun _ => k))
  (at level 61, right associativity).

(** [await node.op(...)]: the resolved value, or the rejection thrown. *)
Definition await (c : nodeCall) : task value :=
  Await c (fun r => match r with
                    | Resolved v => Ret v
                    | Rejected e => Throw e
                    end).

Definition log (args : list arg) : task unit := Emit (console_log args) (Ret tt).
Definition logError (args : list arg) : task unit := Emit (console_error args) (Ret tt).
Definition prompt : task unit := Emit rl_prompt (Ret tt).

Fixpoint forEach {X} (l : list X) (f : X -> task unit) : task unit :=
  match l with
  | [] => Ret tt
  | x :: r => f x ;; forEach r f
  end.

(** [topics.forEach(...)] on a resolved value, each element read as a string
    by the template literal of the callback: an object reads as
    "[object Object]"; [undefined] has no [forEach], and the call throws a
    TypeError. *)
Definition forEachString (v : value) (f : jsstring -> task unit) : task unit :=
  match v with
  | VStrings l => forEach l f
  | VSwarmPeers l => forEach l (fun _ => f (lit "[object Object]"))
  | VUndefined => Throw TypeError
  end.

(** ** Text and wire bytes: the utf8 codec of uint8arrays

    [index.js] calls [fromString] and [toString] of the [uint8arrays]
    package with their default encoding, utf8.  Under Node.js these are
    [Buffer.from(s, 'utf8')] and [buffer.toString('utf8')]: the UTF-8 encoder
    and the replacing UTF-8 decoder of the Encoding standard, without
    byte-order-mark handling. *)

Definition isHighSurrogate (c : Z) : bool := (0xD800 <=? c) && (c <=? 0xDBFF).
Definition isLowSurrogate (c : Z) : bool := (0xDC00 <=? c) && (c <=? 0xDFFF).

Definition replacement : Z := 0xFFFD.

Definition utf8_encode_cp (cp : Z) : bytes :=
  if cp <? 0x80 then [cp]
  else if cp <? 0x800 then
    [Z.lor 0xC0 (Z.shiftr cp 6); Z.lor 0x80 (Z.land cp 0x3F)]
  else if cp <? 0x10000 then
    [Z.lor 0xE0 (Z.shiftr cp 12);
     Z.lor 0x80 (Z.land (Z.shiftr cp 6) 0x3F);
     Z.lor 0x80 (Z.land cp 0x3F)]
  else
    [Z.lor 0xF0 (Z.shiftr cp 18);
     Z.lor 0x80 (Z.land (Z.shiftr cp 12) 0x3F);
     Z.lor 0x80 (Z.land (Z.shiftr cp 6) 0x3F);
     Z.lor 0x80 (Z.land cp 0x3F)].

Definition pair_code_point (hi lo : Z) : Z :=
  0x10000 + Z.shiftl (hi - 0xD800) 10 + (lo - 0xDC00).

(** A surrogate pair is one code point; a surrogate on its own is encoded as
    U+FFFD. *)
Fixpoint uint8ArrayFromString (s : jsstring) : bytes :=
  match s with
  | [] => []
  | c :: r =>
      if isHighSurrogate c then
        match r with
        | d :: r' =>
            if isLowSurrogate d
            then utf8_encode_cp (pair_code_point c d) ++ uint8ArrayFromString r'
            else utf8_encode_cp replacement ++ uint8ArrayFromString r
        | [] => utf8_encode_cp replacement
        end
      else if isLowSurrogate c then
        utf8_encode_cp replacement ++ uint8ArrayFromString r
      else utf8_encode_cp c ++ uint8ArrayFromString r
  end.

(** The code units of a decoded code point. *)
Definition code_units (cp : Z) : jsstring :=
  if cp <? 0x10000 then [cp]
  else [0xD800 + Z.shiftr (cp - 0x10000) 10;
        0xDC00 + Z.land (cp - 0x10000) 0x3FF].

Record utf8_state := {
  code_point : Z;
  bytes_seen : Z;
  bytes_needed : Z;
  lower_boundary : Z;
  upper_boundary : Z
}.

Definition utf8_initial : utf8_state :=
  {| code_point := 0; bytes_seen := 0; bytes_needed := 0;
     lower_boundary := 0x80; upper_boundary := 0xBF |}.

(** A byte read when no sequence is open. *)
Definition utf8_lead (b : Z) : utf8_state * jsstring :=
  if (0 <=? b) && (b <=? 0x7F) then (utf8_initial, [b])
  else if (0xC2 <=? b) && (b <=? 0xDF) then
    ({| code_point := Z.land b 0x1F; bytes_seen := 0; bytes_needed := 1;
        lower_boundary := 0x80; upper_boundary := 0xBF |}, [])
  else if (0xE0 <=? b) && (b <=? 0xEF) then
    ({| code_point := Z.land b 0xF; bytes_seen := 0; bytes_needed := 2;
        lower_boundary := if b =? 0xE0 then 0xA0 else 0x80;
        upper_boundary := if b =? 0xED then 0x9F else 0xBF |}, [])
  else if (0xF0 <=? b) && (b <=? 0xF4) then
    ({| code_point := Z.land b 0x7; bytes_seen := 0; bytes_needed := 3;
        lower_boundary := if b =? 0xF0 then 0x90 else 0x80;
        upper_boundary := if b =? 0xF4 then 0x8F else 0xBF |}, [])
  else (utf8_initial, [replacement]).

(** The decoder never fails: a byte that cannot continue the open sequence
    yields U+FFFD and is read again as a lead byte; an open sequence at the
    end of the input yields U+FFFD. *)
Fixpoint utf8_decode (st : utf8_state) (bs : bytes) : jsstring :=
  match bs with
  | [] => if bytes_needed st =? 0 then [] else [replacement]
  | b :: r =>
      if bytes_needed st =? 0 then
        let (st', out) := utf8_lead b in out ++ utf8_decode st' r
      else if (b <? lower_boundary st) || (upper_boundary st <? b) then
        replacement :: (let (st', out) := utf8_lead b in out ++ utf8_decode st' r)
      else
        let cp := Z.lor (Z.shiftl (code_point st) 6) (Z.land b 0x3F) in
        let seen := bytes_seen st + 1 in
        if seen =? bytes_needed st then code_units cp ++ utf8_decode utf8_initial r
        else utf8_decode {| code_point := cp; bytes_seen := seen;
                            bytes_needed := bytes_needed st;
                            lower_boundary := 0x80; upper_boundary := 0xBF |} r
  end.

Definition uint8ArrayToString (array : bytes) : jsstring :=
  utf8_decode utf8_initial array.

(** Strings without a surrogate on its own, made of 16-bit code units. *)
Fixpoint well_formed (s : jsstring) : bool :=
  match s with
  | [] => true
  | c :: r =>
      (0 <=? c) && (c <=? 0xFFFF) &&
      if isHighSurrogate c then
        match r with
        | d :: r' => isLowSurrogate d && well_formed r'
        | [] => false
        end
      else negb (isLowSurrogate c) && well_formed r
  end.

(** ** The pubsub interface of [main] *)

(** The callback handed to [node.pubsub.subscribe]. *)
Definition onMessage (topic : jsstring) (msg : message) : task unit :=
  let from := from msg in
  let data := uint8ArrayToString (data msg) in
  log [AStr (newline :: lit "Received message on " ++ topic ++ lit " from "
               ++ from ++ lit ":");
       AStr data].

Definition subscribe (topic : jsstring) : task value :=
  try_catch
    (await (pubsub_subscribe topic) ;;
     log [AStr (lit "Subscribed to topic: " ++ topic)] ;;
     Ret VUndefined)
    (fun err => logError [AStr (lit "Failed to subscribe:"); AErr err] ;;
                Ret VUndefined).

Definition publish (topic message : jsstring) : task value :=
  try_catch
    (let msgUint8Array := uint8ArrayFromString message in
     await (pubsub_publish topic msgUint8Array) ;;
     log [AStr (lit "Published message to " ++ topic)] ;;
     Ret VUndefined)
    (fun err => logError [AStr (lit "Failed to publish:"); AErr err] ;;
                Ret VUndefined).

Definition listTopics : task value :=
  try_catch
    (topics <- await pubsub_ls ;;
     log [AStr (newline :: lit "Subscribed topics:")] ;;
     forEachString topics (fun topic => log [AStr (lit "- " ++ topic)]) ;;
     Ret topics)
    (fun err => logError [AStr (lit "Failed to list topics:"); AErr err] ;;
                Ret VUndefined).

Definition listPeers (topic : jsstring) : task value :=
  try_catch
    (peers <- await (pubsub_peers topic) ;;
     log [AStr (newline :: lit "Peers subscribed to " ++ topic ++ lit ":")] ;;
     forEachString peers (fun peer => log [AStr (lit "- " ++ peer)]) ;;
     Ret peers)
    (fun err => logError [AStr (lit "Failed to list peers:"); AErr err] ;;
                Ret VUndefined).

(** ** The command console *)

Section Console.

(** The identity fetched once by [main] with [node.id()]. *)
Variable id : identity.

Definition is_command (command : option jsstring) (name : string) : bool :=
  match command with
  | Some c => str_eqb c (lit name)
  | None => false
  end.

Definition processCommand (input : jsstring) : task unit :=
  let parts := split space (trim input) in
  let command := nth_error parts 0 in
  let args := skipn 1 parts in
  if is_command command "sub" then
    if falsy (nth_error args 0) then log [AStr (lit "Usage: sub <topic>")]
    else subscribe (strval (nth_error args 0)) ;; Ret tt
  else if is_command command "pub" then
    if falsy (nth_error args 0) || falsy (nth_error args 1)
    then log [AStr (lit "Usage: pub <topic> <message>")]
    else
      let topic := strval (nth_error args 0) in
      let message := join space (skipn 1 args) in
      publish topic message ;; Ret tt
  else if is_command command "topics" then
    listTopics ;; Ret tt
  else if is_command command "peers" then
    if falsy (nth_error args 0) then log [AStr (lit "Usage: peers <topic>")]
    else listPeers (strval (nth_error args 0)) ;; Ret tt
  else if is_command command "info" then
    log [AStr (newline :: lit "Node ID:"); AStr (id_id id)] ;;
    log [AStr (lit "Addresses:")] ;;
    forEach (id_addresses id) (fun addr => log [AStr (lit "- " ++ addr)])
  else if is_command command "swarm" then
    peers <- await swarm_peers ;;
    match peers with
    | VSwarmPeers l =>
        log [AStr (newline :: lit "Connected peers:"); ANum (Z.of_nat (List.length l))] ;;
        forEach l (fun peer =>
          log [AStr (lit "- " ++ fst peer ++ lit ": " ++ snd peer)])
    | VStrings l =>
        log [AStr (newline :: lit "Connected peers:"); ANum (Z.of_nat (List.length l))] ;;
        forEach l (fun _ => log [AStr (lit "- undefined: undefined")])
    | VUndefined => Throw TypeError
    end
  else if is_command command "quit" then
    log [AStr (lit "Shutting down...")] ;;
    await node_stop ;;
    Exit 0
  else
    log [AStr (lit "Unknown command. Type help for available commands.")].

(** The listener of [rl.on('line', ...)]. *)
Definition onLine (input : jsstring) : task unit :=
  try_catch (processCommand input)
    (fun err => logError [AStr (lit "Error processing command:"); AErr err]) ;;
  prompt.

(** The listener of [process.on('SIGINT', ...)]. *)
Definition onSIGINT : task unit :=
  log [AStr (newline :: lit "Shutting down IPFS node...")] ;;
  await node_stop ;;
  Exit 0.

(** ** The event loop *)

(** What an execution does to the outside, in order. *)
Inductive action :=
| Eff (e : effect)
| NodeCall (call_id : nat) (c : nodeCall)
| ProcessExit (code : Z)
| UnhandledRejection (e : error).

(** Calls of the node that have not settled, each with the rest of the
    handler that awaits it; the callbacks given to the node, each with the
    topic its closure holds. *)
Record state := {
  next_id : nat;
  pending : list (nat * (outcome -> task unit));
  callbacks : list (nat * jsstring);
  exited : bool
}.

Definition initial : state :=
  {| next_id := 0; pending := []; callbacks := []; exited := false |}.

Definition register (c : nodeCall) (n : nat) (cbs : list (nat * jsstring)) :=
  match c with
  | pubsub_subscribe topic => (n, topic) :: cbs
  | _ => cbs
  end.

(** Runs a handler until it returns, exits or suspends at an [await].  A
    handler that throws leaves a rejected promise nobody handles, on which
    Node.js (15 and later) ends the process with exit code 1. *)
Fixpoint exec (t : task unit) (s : state) : state * list action :=
  match t with
  | Ret _ => (s, [])
  | Throw e =>
      ({| next_id := next_id s; pending := pending s;
          callbacks := callbacks s; exited := true |},
       [UnhandledRejection e; ProcessExit 1])
  | Emit o k => let (s', out) := exec k s in (s', Eff o :: out)
  | Await c k =>
      ({| next_id := S (next_id s);
          pending := (next_id s, k) :: pending s;
          callbacks := register c (next_id s) (callbacks s);
          exited := exited s |},
       [NodeCall (next_id s) c])
  | Exit code =>
      ({| next_id := next_id s; pending := pending s;
          callbacks := callbacks s; exited := true |},
       [ProcessExit code])
  end.

Inductive event :=
| Line (input : jsstring)
| SIGINT
| Settled (call_id : nat) (r : outcome)
| Delivered (call_id : nat) (msg : message).

Fixpoint take {X} (n : nat) (l : list (nat * X)) : option (X * list (nat * X)) :=
  match l with
  | [] => None
  | (m, x) :: r =>
      if Nat.eqb n m then Some (x, r)
      else match take n r with
           | Some (y, r') => Some (y, (m, x) :: r')
           | None => None
           end
  end.

Fixpoint lookup {X} (n : nat) (l : list (nat * X)) : option X :=
  match l with
  | [] => None
  | (m, x) :: r => if Nat.eqb n m then Some x else lookup n r
  end.

(** One turn of the event loop.  After [process.exit] nothing runs. *)
Definition step (s : state) (e : event) : state * list action :=
  if exited s then (s, [])
  else match e with
       | Line input => exec (onLine input) s
       | SIGINT => exec onSIGINT s
       | Settled n r =>
           match take n (pending s) with
           | Some (k, rest) =>
               exec (k r) {| next_id := next_id s; pending := rest;
                             callbacks := callbacks s; exited := exited s |}
           | None => (s, [])
           end
       | Delivered n msg =>
           match lookup n (callbacks s) with
           | Some topic => exec (onMessage topic msg) s
           | None => (s, [])
           end
       end.

Fixpoint run (s : state) (evs : list event) : state * list action :=
  match evs with
  | [] => (s, [])
  | e :: r =>
      let (s1, out1) := step s e in
      let (s2, out2) := run s1 r in
      (s2, out1 ++ out2)
  end.

Definition is_stop (a : action) : bool :=
  match a with
  | NodeCall _ node_stop => true
  | _ => false
  end.

Definition stop_calls (out : list action) : nat := List.length (filter is_stop out).

Definition command_of (input : jsstring) : option jsstring :=
  nth_error (split space (trim input)) 0.

(** Events that start a shutdown: a [quit] line or SIGINT. *)
Definition is_trigger (e : event) : bool :=
  match e with
  | Line input => is_command (command_of input) "quit"
  | SIGINT => true
  | _ => false
  end.

(** The shutdown triggers of a run that reach a process still alive. *)
Fixpoint triggers_handled (s : state) (evs : list event) : nat :=
  match evs with
  | [] => O
  | e :: r =>
      ((if negb (exited s) && is_trigger e then 1 else 0)
       + triggers_handled (fst (step s e)) r)%nat
  end.

End Console.

(** ** Numbers: IEEE 754 binary64 in the range the program uses

    A finite non-negative double is a multiple of 2^-1074 with at most 53
    significant bits; the integer [n] stands for the number [n * 2^-1074].
    Results are rounded to nearest, ties to even. *)
Module Double.

Definition scale : Z := 2 ^ 1074.

Definition of_int (c : Z) : Z := c * scale.

(** The double nearest to [p * 2^-k] units, for [0 <= p] and [0 <= k]. *)
Definition round_shift (p k : Z) : Z :=
  let e := Z.max 0 (Z.log2 (p / 2 ^ k) - 52) in
  let d := k + e in
  if d =? 0 then p
  else
    let q := p / 2 ^ d in
    let r := p mod 2 ^ d in
    let half := 2 ^ (d - 1) in
    if (half <? r) || ((r =? half) && Z.odd q)
    then (q + 1) * 2 ^ e
    else q * 2 ^ e.

Definition representable (n : Z) : bool := (0 <=? n) && (round_shift n 0 =? n).

Definition add (a b : Z) : Z := round_shift (a + b) 0.
Definition sub (a b : Z) : Z := round_shift (a - b) 0.
Definition mul (a b : Z) : Z := round_shift (a * b) 1074.

(** [Math.floor], as the integer it denotes. *)
Definition floor (n : Z) : Z := n / scale.

End Double.

(** ** Start-up: ports and node options *)

(** The argument of [Math.floor] in [getRandomPort]. *)
Definition port_sum (random min max : Z) : Z :=
  Double.add (Double.mul random (Double.sub max min)) min.

(** [random] is the double returned by the call of [Math.random()]. *)
Definition getRandomPort (random min max : Z) : Z :=
  Double.floor (port_sum random min max).

Record PortSet := {
  swarmPort : Z;
  wsPort : Z;
  apiPort : Z;
  gatewayPort : Z
}.

(** The four draws of [main], in order. *)
Definition generatePorts (r1 r2 r3 r4 : Z) : PortSet :=
  {| swarmPort := getRandomPort r1 (Double.of_int 4002) (Double.of_int 4999);
     wsPort := getRandomPort r2 (Double.of_int 5000) (Double.of_int 5999);
     apiPort := getRandomPort r3 (Double.of_int 6000) (Double.of_int 6999);
     gatewayPort := getRandomPort r4 (Double.of_int 7000) (Double.of_int 7999) |}.

(** An integer inside a template literal. *)
Definition Number_toString (n : Z) : jsstring :=
  lit (NilZero.string_of_int (Z.to_int n)).

Definition repoPath (swarmPort : Z) : jsstring :=
  lit "./ipfs-repo-" ++ Number_toString swarmPort.

Record options := {
  repo : jsstring;
  Addresses_Swarm : list jsstring;
  Addresses_API : jsstring;
  Addresses_Gateway : jsstring;
  Bootstrap : list jsstring;
  Pubsub_Enabled : bool;
  Pubsub_Router : jsstring;
  start : bool
}.

(** The argument of [create] in [main]. *)
Definition nodeOptions (p : PortSet) : options :=
  {| repo := repoPath (swarmPort p);
     Addresses_Swarm :=
       [lit "/ip4/0.0.0.0/tcp/" ++ Number_toString (swarmPort p);
        lit "/ip4/127.0.0.1/tcp/" ++ Number_toString (wsPort p) ++ lit "/ws"];
     Addresses_API := lit "/ip4/127.0.0.1/tcp/" ++ Number_toString (apiPort p);
     Addresses_Gateway := lit "/ip4/127.0.0.1/tcp/" ++ Number_toString (gatewayPort p);
     Bootstrap :=
       [lit "/dnsaddr/bootstrap.libp2p.io/p2p/QmNnooDu7bfjPFoTZYxMNLWUQJyrVwtbZg5gBMjTezGAJN";
        lit "/dnsaddr/bootstrap.libp2p.io/p2p/QmQCU2EcMqAqQPR2i9bChDtGNJchTbq5TbXJJ16u19uLTa";
        lit "/dnsaddr/bootstrap.libp2p.io/p2p/QmbLHAnMoJPWSCR5Zhtx6BHJX9KiKNN6tpvbUcqanj75Nb"];
     Pubsub_Enabled := true;
     Pubsub_Router := lit "gossipsub";
     start := true |}.

(** ** Vocabulary of the statements *)

Definition sample_identity : identity :=
  {| id_id := lit "QmNode"; id_addresses := [lit "/ip4/127.0.0.1/tcp/4002"] |}.

(** A string without white space. *)
Definition clean (s : jsstring) : Prop :=
  Forall (fun c => isWhiteSpace c = false) s.

Definition usage_pub : action :=
  Eff (console_log [AStr (lit "Usage: pub <topic> <message>")]).

(** The state once the call made from [s] has settled and the process has
    exited. *)
Definition exit_state (s : state) : state :=
  {| next_id := S (next_id s); pending := pending s;
     callbacks := callbacks s; exited := true |}.

Definition failure_report (label : string) (e : error) : action :=
  Eff (console_error [AStr (lit label); AErr e]).

(** A command whose node call was rejected: the call, one line on the error
    stream, the prompt; the console stays alive with nothing left pending. *)
Definition reported (id : identity) (s : state) (input : jsstring)
    (c : nodeCall) (label : string) (e : error) : Prop :=
  exists s',
    run id s [Line input; Settled (next_id s) (Rejected e)] =
      (s', [NodeCall (next_id s) c; failure_report label e; Eff rl_prompt])
    /\ exited s' = false
    /\ pending s' = pending s.

(** The line printed for a message received on [topic]. *)
Definition received_line (topic : jsstring) (msg : message) : action :=
  Eff (console_log
         [AStr (newline :: lit "Received message on " ++ topic ++ lit " from "
                  ++ from msg ++ lit ":");
          AStr (uint8ArrayToString (data msg))]).

(** A property of every effect and every awaited call of a task, on all its
    paths. *)
Fixpoint all_nodes {A} (PE : effect -> Prop) (PA : nodeCall -> Prop)
    (t : task A) : Prop :=
  match t with
  | Emit o k => PE o /\ all_nodes PE PA k
  | Await c k => PA c /\ forall r, all_nodes PE PA (k r)
  | _ => True
  end.

(** A task that never suspends. *)
Definition quiet {A} (t : task A) : Prop :=
  all_nodes (fun _ => True) (fun _ => False) t.

(** A task that never prompts. *)
Definition no_prompt {A} (t : task A) : Prop :=
  all_nodes (fun o => o <> rl_prompt) (fun _ => True) t.

(** The call at which a handler suspends first, if it does. *)
Fixpoint first_call {A} (t : task A) : option nodeCall :=
  match t with
  | Emit _ k => first_call k
  | Await c _ => Some c
  | _ => None
  end.

Definition is_stop_call (o : option nodeCall) : bool :=
  match o with
  | Some node_stop => true
  | _ => false
  end.

(** What is left of a handler after its first [await] never suspends again. *)
Fixpoint awaits_once {A} (t : task A) : Prop :=
  match t with
  | Emit _ k => awaits_once k
  | Await _ k => forall r, quiet (k r)
  | _ => True
  end.

(** Along every path the handler prompts once, as its last action and after
    every call it awaited has settled, unless the process exits. *)
Inductive prompts_last : task unit -> Prop :=
| pl_prompt : prompts_last (Emit rl_prompt (Ret tt))
| pl_emit o k : o <> rl_prompt -> prompts_last k -> prompts_last (Emit o k)
| pl_await c k : (forall r, prompts_last (k r)) -> prompts_last (Await c k)
| pl_exit code : prompts_last (Exit code).

(** Every suspended handler runs to its end once its call settles. *)
Definition calm (s : state) : Prop :=
  Forall (fun p => forall r, quiet (snd p r)) (pending s).

(** Unicode scalar values: code points that are no surrogates. *)
Definition scalar (cp : Z) : Prop :=
  0 <= cp < 0xD800 \/ 0xE000 <= cp < 0x110000.

(** The encoder in terms of quotients and remainders. *)
Definition encode_arith (cp : Z) : bytes :=
  if cp <? 0x80 then [cp]
  else if cp <? 0x800 then [192 + cp / 64; 128 + cp mod 64]
  else if cp <? 0x10000 then
    [224 + cp / 4096; 128 + (cp / 64) mod 64; 128 + cp mod 64]
  else [240 + cp / 262144; 128 + (cp / 4096) mod 64;
        128 + (cp / 64) mod 64; 128 + cp mod 64].


(** What the line handler does once the call it awaits is rejected. *)
Fixpoint on_rejection (t : task unit) (e : error) : option (task unit) :=
  match t with
  | Emit _ k => on_rejection k e
  | Await _ k => Some (k (Rejected e))
  | _ => None
  end.

(** The binary64 operations of the Standard Library's specification of
    IEEE 754, to compare [Double] with. *)
Definition binary64 (m e : Z) : spec_float := binary_normalize 53 1024 m e false.

Definition units (f : spec_float) : option Z :=
  match f with
  | S754_zero _ => Some 0
  | S754_finite false m e => Some (Z.pos m * 2 ^ (e + 1074))
  | _ => None
  end.

Definition spec_port_sum (random min max : spec_float) : spec_float :=
  SFadd 53 1024 (SFmul 53 1024 random (SFsub 53 1024 max min)) min.

(** The double 1 - 2^-52, the largest value of [Math.random()] when it
    draws 52 random bits. *)
Definition below_one : Z := (2 ^ 52 - 1) * 2 ^ 1022.

(** ** Vocabulary of the further properties *)

(** The labels of the [switch] of [processCommand]. *)
Definition verbs : list string :=
  ["sub"; "pub"; "topics"; "peers"; "info"; "swarm"; "quit"]%string.

Definition known_verb (c : jsstring) : bool :=
  existsb (fun v => str_eqb c (lit v)) verbs.

Definition unknown_command : action :=
  Eff (console_log [AStr (lit "Unknown command. Type help for available commands.")]).

Definition usage_topic (verb : string) : action :=
  Eff (console_log [AStr (lit "Usage: " ++ lit verb ++ lit " <topic>")]).

(** A string of white space only. *)
Definition blank (s : jsstring) : Prop :=
  Forall (fun c => isWhiteSpace c = true) s.

(** One printed line per element, as [forEach] with [console.log] gives. *)
Definition bullet (s : jsstring) : action :=
  Eff (console_log [AStr (lit "- " ++ s)]).

Definition peer_line (peer : jsstring * jsstring) : action :=
  Eff (console_log [AStr (lit "- " ++ fst peer ++ lit ": " ++ snd peer)]).

(** The state after one more call of the node has been made and has
    settled. *)
Definition settled_state (s : state) : state :=
  {| next_id := S (next_id s); pending := pending s;
     callbacks := callbacks s; exited := exited s |}.

Definition is_call (a : action) : bool :=
  match a with
  | NodeCall _ _ => true
  | _ => false
  end.

Definition node_calls (out : list action) : nat := List.length (filter is_call out).

(** Events that run a command: an input line or SIGINT. *)
Definition is_command_event (e : event) : bool :=
  match e with
  | Line _ => true
  | SIGINT => true
  | _ => false
  end.

Definition command_events (evs : list event) : nat :=
  List.length (filter is_command_event evs).

(** The ranges of the four calls of [getRandomPort] in [main]. *)
Definition port_ranges : list (Z * Z) :=
  [(4002, 4999); (5000, 5999); (6000, 6999); (7000, 7999)].

(** The doubles 1 - 5 * 2^-53 and 1 - 4 * 2^-53, next to each other. *)
Definition last_below_top : Z := (2 ^ 53 - 5) * 2 ^ 1021.
Definition first_at_top : Z := (2 ^ 53 - 4) * 2 ^ 1021.

(** ** Start-up: [main]

    [create] and [node.id()] are awaited before anything else of the node
    is used; what they settle with is given: [created] is the rejection of
    [create], if any, and [identified] the identity or the rejection of
    [node.id()]. *)

(** The list of commands printed before the first prompt. *)
Definition banner : list (list arg) :=
  [[AStr (newline :: lit "=== IPFS PubSub Interface ===")];
   [AStr (lit "Available commands:")];
   [AStr (lit "1. sub <topic> - Subscribe to a topic")];
   [AStr (lit "2. pub <topic> <message> - Publish message to a topic")];
   [AStr (lit "3. topics - List subscribed topics")];
   [AStr (lit "4. peers <topic> - List peers in a topic")];
   [AStr (lit "5. info - Show node information")];
   [AStr (lit "6. swarm - Show connected peers")];
   [AStr (lit "7. quit - Exit the application")]].

(** [peers.length] of the value [node.swarm.peers()] resolved with. *)
Definition length_of (v : value) : task Z :=
  match v with
  | VStrings l => Ret (Z.of_nat (List.length l))
  | VSwarmPeers l => Ret (Z.of_nat (List.length l))
  | VUndefined => Throw TypeError
  end.

Definition main (r1 r2 r3 r4 : Z) (created : option error)
    (identified : identity + error) : task unit :=
  let ports := generatePorts r1 r2 r3 r4 in
  let repoPath := repoPath (swarmPort ports) in
  log [AStr (lit "Starting IPFS node...")] ;;
  match created with
  | Some err => Throw err
  | None =>
      log [AStr (lit "IPFS node is ready")] ;;
      log [AStr (lit "Repository path: " ++ repoPath)] ;;
      log [AStr (lit "Swarm port: " ++ Number_toString (swarmPort ports))] ;;
      log [AStr (lit "WebSocket port: " ++ Number_toString (wsPort ports))] ;;
      log [AStr (lit "API port: " ++ Number_toString (apiPort ports))] ;;
      log [AStr (lit "Gateway port: " ++ Number_toString (gatewayPort ports))] ;;
      match identified with
      | inr err => Throw err
      | inl id =>
          log [AStr (lit "Node ID:"); AStr (id_id id)] ;;
          log [AStr (lit "Node addresses:")] ;;
          forEach (id_addresses id) (fun addr => log [AStr (lit "- " ++ addr)]) ;;
          log [AStr (newline :: lit "Connecting to IPFS swarm...")] ;;
          try_catch
            (peers <- await swarm_peers ;;
             n <- length_of peers ;;
             log [AStr (lit "Connected to"); ANum n; AStr (lit "peers")])
            (fun err => logError [AStr (lit "Failed to connect to swarm:"); AErr err]) ;;
          forEach banner log ;;
          prompt
      end
  end.

(** [main().catch(console.error)]. *)
Definition launch (r1 r2 r3 r4 : Z) (created : option error)
    (identified : identity + error) : task unit :=
  try_catch (main r1 r2 r3 r4 created identified)
    (fun err => logError [AErr err]).

(** What [main] prints up to the call of [create]. *)
Definition starting : action := Eff (console_log [AStr (lit "Starting IPFS node...")]).

(** What [main] prints between [create] and [node.id()]. *)
Definition ready_lines (ports : PortSet) : list action :=
  [Eff (console_log [AStr (lit "IPFS node is ready")]);
   Eff (console_log [AStr (lit "Repository path: " ++ repoPath (swarmPort ports))]);
   Eff (console_log [AStr (lit "Swarm port: " ++ Number_toString (swarmPort ports))]);
   Eff (console_log [AStr (lit "WebSocket port: " ++ Number_toString (wsPort ports))]);
   Eff (console_log [AStr (lit "API port: " ++ Number_toString (apiPort ports))]);
   Eff (console_log [AStr (lit "Gateway port: " ++ Number_toString (gatewayPort ports))])].

(** [s.toWellFormed()]: every surrogate on its own replaced by U+FFFD. *)
Fixpoint toWellFormed (s : jsstring) : jsstring :=
  match s with
  | [] => []
  | c :: r =>
      if isHighSurrogate c then
        match r with
        | d :: r' =>
            if isLowSurrogate d then c :: d :: toWellFormed r'
            else replacement :: toWellFormed r
        | [] => [replacement]
        end
      else if isLowSurrogate c then replacement :: toWellFormed r
      else c :: toWellFormed r
  end.

(** Strings of 16-bit code units; bytes of 8 bits. *)
Definition code_units16 (s : jsstring) : Prop := Forall (fun c => 0 <= c <= 0xFFFF) s.
Definition octets (b : bytes) : Prop := Forall (fun x => 0 <= x <= 0xFF) b.

(** The line [main] prints when [node.swarm.peers()] resolved with a list. *)
Definition connected_line (n : Z) : action :=
  Eff (console_log [AStr (lit "Connected to"); ANum n; AStr (lit "peers")]).

(** What [main] prints from [node.id()] to the call of [node.swarm.peers()]. *)
Definition identity_lines (id : identity) : list action :=
  Eff (console_log [AStr (lit "Node ID:"); AStr (id_id id)])
  :: Eff (console_log [AStr (lit "Node addresses:")])
  :: map bullet (id_addresses id)
  ++ [Eff (console_log [AStr (newline :: lit "Connecting to IPFS swarm...")])].

Definition banner_lines : list action :=
  map (fun args => Eff (console_log args)) banner.

(** ** Vocabulary of dispatch, shutdown and paths *)










(** The callback registered by the call [n] holds [topic]. *)
Definition subscribed (n : nat) (topic : jsstring) (s : state) : Prop :=
  lookup n (callbacks s) = Some topic /\ (n < next_id s)%nat.

Definition isDigit (c : Z) : bool := (48 <=? c) && (c <=? 57).

(** The number a string of decimal digits denotes. *)
Definition decimal_value (s : jsstring) : Z :=
  fold_left (fun acc c => 10 * acc + (c - 48)) s 0.

(** * Properties *)

(** ** Parsing a line *)

Lemma trimStart_clean c s : isWhiteSpace c = false -> trimStart (c :: s) = c :: s.
Proof. intros H. cbn [trimStart]. rewrite H. reflexivity. Qed.

Lemma trim_clean c s d : isWhiteSpace c = false -> isWhiteSpace d = false ->
  trim (c :: s ++ [d]) = c :: s ++ [d].
Proof.
  intros Hc Hd. unfold trim, trimEnd. rewrite trimStart_clean by exact Hc.
  change (c :: s ++ [d]) with ((c :: s) ++ [d]).
  rewrite rev_app_distr. cbn [rev app]. rewrite trimStart_clean by exact Hd.
  change (d :: rev s ++ [c]) with ([d] ++ rev (c :: s)).
  rewrite rev_app_distr, rev_involutive. reflexivity.
Qed.

Lemma clean_no_space s : clean s -> Forall (fun c => (c =? space) = false) s.
Proof.
  apply Forall_impl. intros c H. destruct (Z.eqb_spec c space) as [->|]; auto.
Qed.

Lemma split_piece a rest : clean a ->
  split space (a ++ space :: rest) = a :: split space rest.
Proof.
  intros Ha. apply clean_no_space in Ha.
  induction Ha as [|x a Hx Ha IH]; [reflexivity|].
  cbn [app split]. rewrite Hx, IH. reflexivity.
Qed.

Lemma split_last a : clean a -> split space a = [a].
Proof.
  intros Ha. apply clean_no_space in Ha.
  induction Ha as [|x a Hx Ha IH]; [reflexivity|].
  cbn [split]. rewrite Hx, IH. reflexivity.
Qed.

Lemma clean_last s : clean s -> s <> [] ->
  exists r d, s = r ++ [d] /\ isWhiteSpace d = false.
Proof.
  intros Hs Hne. destruct (exists_last Hne) as (r & d & ->).
  exists r, d. split; [reflexivity|].
  apply Forall_app in Hs. destruct Hs as [_ Hd]. inversion Hd. assumption.
Qed.

(** The line [pub <topic>] parses into the verb and one argument. *)
Lemma parse_pub_topic topic : clean topic -> topic <> [] ->
  split space (trim (lit "pub " ++ topic)) = [lit "pub"; topic].
Proof.
  intros Hc Hne. destruct (clean_last topic Hc Hne) as (r & d & Heq & Hd).
  rewrite Heq at 1.
  change (lit "pub " ++ r ++ [d]) with (112 :: (lit "ub " ++ r) ++ [d]).
  rewrite trim_clean by (reflexivity || exact Hd).
  change (112 :: (lit "ub " ++ r) ++ [d]) with (lit "pub" ++ space :: (r ++ [d])).
  rewrite <- Heq. rewrite split_piece by (repeat constructor).
  rewrite split_last by exact Hc. reflexivity.
Qed.

(** With two spaces after the topic, the second argument is the empty
    string and the words of the message come after it. *)
Lemma parse_pub_double_space topic msg d :
  clean topic -> isWhiteSpace d = false ->
  split space (trim (lit "pub " ++ topic ++ space :: space :: msg ++ [d])) =
  lit "pub" :: topic :: [] :: split space (msg ++ [d]).
Proof.
  intros Hc Hd.
  change (lit "pub " ++ topic ++ space :: space :: msg ++ [d])
    with (112 :: (lit "ub " ++ topic ++ space :: space :: msg ++ [d])).
  replace (lit "ub " ++ topic ++ space :: space :: msg ++ [d])
    with ((lit "ub " ++ topic ++ space :: space :: msg) ++ [d])
    by (rewrite <- !app_assoc; reflexivity).
  rewrite trim_clean by (reflexivity || exact Hd).
  replace (112 :: (lit "ub " ++ topic ++ space :: space :: msg) ++ [d])
    with (lit "pub" ++ space :: (topic ++ space :: ([] ++ space :: (msg ++ [d]))))
    by (cbn [app lit list_ascii_of_string map]; rewrite <- !app_assoc; reflexivity).
  rewrite split_piece by (repeat constructor).
  rewrite split_piece by exact Hc.
  rewrite split_piece by constructor. reflexivity.
Qed.

(** ** Arity guards of [pub] *)

Lemma step_live id s e : exited s = false ->
  step id s e =
  match e with
  | Line input => exec (onLine id input) s
  | SIGINT => exec onSIGINT s
  | Settled n r =>
      match take n (pending s) with
      | Some (k, rest) =>
          exec (k r) {| next_id := next_id s; pending := rest;
                        callbacks := callbacks s; exited := exited s |}
      | None => (s, [])
      end
  | Delivered n msg =>
      match lookup n (callbacks s) with
      | Some topic => exec (onMessage topic msg) s
      | None => (s, [])
      end
  end.
Proof. intros H. unfold step. rewrite H. reflexivity. Qed.

(** C4: a [pub] line with a topic and no message prints the usage message
    and the prompt; no call of the node is made and nothing is left
    pending. *)
Theorem pub_one_argument_rejected (id : identity) (s : state)
    (input topic : jsstring) :
  split space (trim input) = [lit "pub"; topic] ->
  exited s = false ->
  step id s (Line input) = (s, [usage_pub; Eff rl_prompt]).
Proof.
  intros Hparse Hlive. rewrite step_live by assumption.
  unfold onLine, processCommand. rewrite Hparse.
  destruct topic; reflexivity.
Qed.

Lemma pub_one_argument_rejected_witness :
  split space (trim (lit "pub news")) = [lit "pub"; lit "news"]
  /\ exited initial = false
  /\ step sample_identity initial (Line (lit "pub news")) =
       (initial, [usage_pub; Eff rl_prompt]).
Proof.
  split; [reflexivity|]. split; [reflexivity|].
  apply (pub_one_argument_rejected sample_identity initial
           (lit "pub news") (lit "news")); reflexivity.
Defined.

(** C10: a [pub] line whose token after the topic is the empty string (two
    spaces in a row) prints the usage message and is not published, whatever
    follows: the guard tests the truthiness of the second argument. *)
Theorem pub_empty_second_token_rejected (id : identity) (s : state)
    (input topic : jsstring) (rest : list jsstring) :
  split space (trim input) = lit "pub" :: topic :: [] :: rest ->
  exited s = false ->
  step id s (Line input) = (s, [usage_pub; Eff rl_prompt]).
Proof.
  intros Hparse Hlive. rewrite step_live by assumption.
  unfold onLine, processCommand. rewrite Hparse.
  destruct topic; reflexivity.
Qed.

Lemma pub_empty_second_token_rejected_witness :
  split space (trim (lit "pub news  hello world")) =
    lit "pub" :: lit "news" :: [] :: [lit "hello"; lit "world"]
  /\ exited initial = false
  /\ step sample_identity initial (Line (lit "pub news  hello world")) =
       (initial, [usage_pub; Eff rl_prompt]).
Proof.
  split; [reflexivity|]. split; [reflexivity|].
  apply (pub_empty_second_token_rejected sample_identity initial
           (lit "pub news  hello world") (lit "news")
           [lit "hello"; lit "world"]); reflexivity.
Defined.

(** With one space between topic and message the same words are published. *)
Example pub_single_space_is_published :
  snd (step sample_identity initial (Line (lit "pub news hello world"))) =
  [NodeCall 0 (pubsub_publish (lit "news")
                 (uint8ArrayFromString (lit "hello world")))].
Proof. reflexivity. Qed.

(** ** Shutdown *)

Ltac run_two Hlive :=
  unfold run; rewrite step_live by assumption;
  unfold onLine, onSIGINT, processCommand;
  repeat match goal with H : split _ _ = _ |- _ => rewrite H end;
  cbn [nth_error skipn is_command str_eqb lit list_ascii_of_string map
       N_of_ascii Z.of_N falsy truthy negb orb andb strval];
  cbn; unfold step; cbn;
  rewrite ?Hlive, ?Nat.eqb_refl; cbn; rewrite ?Hlive.

(** C9, counterexample: when [node.stop()] is rejected, [quit] does not
    exit (the rejection is printed and the console goes on), and SIGINT
    ends the process on the unhandled rejection with status 1, not 0. *)
Lemma failed_stop_does_not_exit_zero :
  let e := NodeError (lit "busy") in
  let quit_run :=
    run sample_identity initial [Line (lit "quit"); Settled 0 (Rejected e)] in
  let signal_run :=
    run sample_identity initial [SIGINT; Settled 0 (Rejected e)] in
  exited (fst quit_run) = false
  /\ ~ In (ProcessExit 0) (snd quit_run)
  /\ ~ In (ProcessExit 0) (snd signal_run)
  /\ In (ProcessExit 1) (snd signal_run).
Proof.
  cbn zeta. split; [reflexivity|]. split; [|split].
  - vm_compute. intros H.
    repeat (destruct H as [H|H]; [discriminate H|]). exact H.
  - vm_compute. intros H.
    repeat (destruct H as [H|H]; [discriminate H|]). exact H.
  - vm_compute. right. right. right. left. reflexivity.
Qed.

(** C9, as the code has it: [quit] and SIGINT both print their line and
    call [node.stop()]; the exit code is 0 on both paths when the stop
    resolves.  When it is rejected, [quit] prints the error of the command
    and the prompt and the console stays alive, and the handler of SIGINT
    ends in an unhandled rejection, on which the process ends with
    status 1. *)
Theorem shutdown_exits_zero_when_stop_resolves (id : identity) (s : state)
    (input : jsstring) (args : list jsstring) :
  split space (trim input) = lit "quit" :: args ->
  exited s = false ->
  (forall v,
      run id s [Line input; Settled (next_id s) (Resolved v)] =
        (exit_state s,
         [Eff (console_log [AStr (lit "Shutting down...")]);
          NodeCall (next_id s) node_stop;
          ProcessExit 0])
      /\ run id s [SIGINT; Settled (next_id s) (Resolved v)] =
           (exit_state s,
            [Eff (console_log [AStr (newline :: lit "Shutting down IPFS node...")]);
             NodeCall (next_id s) node_stop;
             ProcessExit 0]))
  /\ (forall e,
        run id s [Line input; Settled (next_id s) (Rejected e)] =
          (settled_state s,
           [Eff (console_log [AStr (lit "Shutting down...")]);
            NodeCall (next_id s) node_stop;
            failure_report "Error processing command:" e;
            Eff rl_prompt])
        /\ exited (settled_state s) = false
        /\ run id s [SIGINT; Settled (next_id s) (Rejected e)] =
             (exit_state s,
              [Eff (console_log [AStr (newline :: lit "Shutting down IPFS node...")]);
               NodeCall (next_id s) node_stop;
               UnhandledRejection e;
               ProcessExit 1])).
Proof.
  intros Hparse Hlive. split.
  - intros v. split; run_two Hlive; reflexivity.
  - intros e. split; [|split; [exact Hlive|]].
    + run_two Hlive. unfold settled_state. rewrite Hlive. reflexivity.
    + run_two Hlive. reflexivity.
Qed.

Lemma shutdown_exits_zero_when_stop_resolves_witness :
  split space (trim (lit "quit")) = [lit "quit"]
  /\ exited initial = false
  /\ run sample_identity initial
       [Line (lit "quit"); Settled 0 (Resolved VUndefined)] =
     (exit_state initial,
      [Eff (console_log [AStr (lit "Shutting down...")]);
       NodeCall 0 node_stop;
       ProcessExit 0])
  /\ run sample_identity initial
       [SIGINT; Settled 0 (Rejected (NodeError (lit "busy")))] =
     (exit_state initial,
      [Eff (console_log [AStr (newline :: lit "Shutting down IPFS node...")]);
       NodeCall 0 node_stop;
       UnhandledRejection (NodeError (lit "busy"));
       ProcessExit 1]).
Proof.
  split; [reflexivity|]. split; [reflexivity|].
  destruct (shutdown_exits_zero_when_stop_resolves sample_identity initial
              (lit "quit") [] eq_refl eq_refl) as [Hres Hrej].
  split.
  - exact (proj1 (Hres VUndefined)).
  - exact (proj2 (proj2 (Hrej (NodeError (lit "busy"))))).
Defined.

(** ** The shape of the handlers *)

Section Shapes.

Context {PE : effect -> Prop} {PA : nodeCall -> Prop}.

Lemma all_bind {A B} (t : task A) (f : A -> task B) :
  all_nodes PE PA t -> (forall a, all_nodes PE PA (f a)) ->
  all_nodes PE PA (bind t f).
Proof.
  intros Ht Hf. induction t as [a|e|o k IH|c k IH|code]; simpl in *; auto.
  - destruct Ht. auto.
  - destruct Ht as [Hc Hk]. split; auto.
Qed.

Lemma all_try_catch {A} (t : task A) (h : error -> task A) :
  all_nodes PE PA t -> (forall e, all_nodes PE PA (h e)) ->
  all_nodes PE PA (try_catch t h).
Proof.
  intros Ht Hh. induction t as [a|e|o k IH|c k IH|code]; simpl in *; auto.
  - destruct Ht. auto.
  - destruct Ht as [Hc Hk]. split; auto.
Qed.

Lemma all_forEach {X} (l : list X) (f : X -> task unit) :
  (forall x, all_nodes PE PA (f x)) -> all_nodes PE PA (forEach l f).
Proof.
  intros Hf. induction l as [|x l IH]; simpl; auto using all_bind.
Qed.

End Shapes.

Ltac shape :=
  repeat first
    [ progress cbn [all_nodes log logError prompt await forEachString]
    | match goal with
      | |- _ /\ _ => split
      | |- forall _, _ => intro
      | |- True => exact I
      | |- _ <> _ => discriminate
      | |- all_nodes _ _ (bind _ _) => apply all_bind
      | |- all_nodes _ _ (try_catch _ _) => apply all_try_catch
      | |- all_nodes _ _ (forEach _ _) => apply all_forEach
      | |- all_nodes _ _ (match ?r with Resolved _ => _ | Rejected _ => _ end) =>
          destruct r
      | |- all_nodes _ _ (match ?v with VUndefined => _ | VStrings _ => _
                                   | VSwarmPeers _ => _ end) => destruct v
      | |- all_nodes _ _ (forEachString ?v _) => destruct v
      | |- all_nodes _ _ (if ?b then _ else _) => destruct b
      end ].

Lemma processCommand_no_prompt id input : no_prompt (processCommand id input).
Proof.
  unfold no_prompt, processCommand, subscribe, publish, listTopics, listPeers.
  shape.
Qed.

Lemma quiet_first_call {A} (t : task A) : quiet t -> first_call t = None.
Proof.
  induction t as [a|e|o k IH|c k IH|code]; simpl; auto.
  - intros [_ Hk]. auto.
  - intros [[] _].
Qed.

Lemma quiet_awaits_once {A} (t : task A) : quiet t -> awaits_once t.
Proof.
  induction t as [a|e|o k IH|c k IH|code]; simpl; auto.
  - intros [_ Hk]. auto.
  - intros [[] _].
Qed.

Lemma bind_awaits_once {A B} (t : task A) (f : A -> task B) :
  awaits_once t -> (forall a, quiet (f a)) -> awaits_once (bind t f).
Proof.
  intros Ht Hf. induction t as [a|e|o k IH|c k IH|code]; simpl in *; auto.
  - apply quiet_awaits_once. auto.
  - intros r. apply all_bind; [apply Ht | apply Hf].
Qed.

Lemma try_catch_awaits_once {A} (t : task A) (h : error -> task A) :
  awaits_once t -> (forall e, quiet (h e)) -> awaits_once (try_catch t h).
Proof.
  intros Ht Hh. induction t as [a|e|o k IH|c k IH|code]; simpl in *; auto.
  - apply quiet_awaits_once. auto.
  - intros r. apply all_try_catch; [apply Ht | apply Hh].
Qed.

Ltac single :=
  repeat first
    [ progress cbn [awaits_once bind try_catch log logError prompt await]
    | match goal with
      | |- forall _, _ => intro
      | |- True => exact I
      | |- awaits_once (if ?b then _ else _) => destruct b
      | |- awaits_once (forEach _ _) => apply quiet_awaits_once
      | |- quiet _ => unfold quiet; shape
      end ].

Lemma processCommand_awaits_once id input : awaits_once (processCommand id input).
Proof.
  unfold processCommand, subscribe, publish, listTopics, listPeers. single.
Qed.

Lemma onLine_awaits_once id input : awaits_once (onLine id input).
Proof.
  unfold onLine. apply bind_awaits_once.
  - apply try_catch_awaits_once.
    + apply processCommand_awaits_once.
    + intros e. unfold quiet. shape.
  - intros a. unfold quiet. shape.
Qed.

Lemma onSIGINT_awaits_once : awaits_once onSIGINT.
Proof. unfold onSIGINT. single. Qed.

Lemma onMessage_quiet topic msg : quiet (onMessage topic msg).
Proof. unfold quiet, onMessage. shape. Qed.

Lemma str_eqb_eq a b : str_eqb a b = true -> a = b.
Proof.
  revert b. induction a as [|x a IH]; intros [|y b]; simpl; try discriminate; auto.
  intros H. apply andb_true_iff in H. destruct H as [Hx Hab].
  apply Z.eqb_eq in Hx. f_equal; auto.
Qed.

Ltac by_command c name E :=
  destruct (str_eqb c (lit name)) eqn:E;
  [ apply str_eqb_eq in E; subst c | ].

(** The line handler suspends on [node.stop()] exactly for a [quit] line. *)
Lemma onLine_first_call id input :
  is_stop_call (first_call (onLine id input)) = is_trigger (Line input).
Proof.
  unfold is_trigger, command_of, onLine, processCommand.
  destruct (nth_error (split space (trim input)) 0) as [c|]; [|reflexivity].
  unfold is_command.
  by_command c "sub"%string E1.
  { destruct (falsy _); reflexivity. }
  by_command c "pub"%string E2.
  { destruct (falsy _ || falsy _); reflexivity. }
  by_command c "topics"%string E3; [reflexivity|].
  by_command c "peers"%string E4.
  { destruct (falsy _); reflexivity. }
  by_command c "info"%string E5.
  { cbn. generalize (id_addresses id). intros l.
    induction l as [|x l IH]; [reflexivity | exact IH]. }
  by_command c "swarm"%string E6; [reflexivity|].
  by_command c "quit"%string E7; reflexivity.
Qed.

(** ** Failures of the pubsub interface *)

(** Whatever the command, a rejected call ends in one line on the error
    stream followed by the prompt. *)
Lemma rejection_reported id input e t' :
  on_rejection (onLine id input) e = Some t' ->
  exists label,
    t' = Emit (console_error [AStr (lit label); AErr e]) (Emit rl_prompt (Ret tt)).
Proof.
  unfold onLine, processCommand.
  destruct (nth_error (split space (trim input)) 0) as [c|];
    [|discriminate].
  unfold is_command.
  by_command c "sub"%string E1.
  { destruct (falsy _); [discriminate|]. intros H. inversion H.
    exists "Failed to subscribe:"%string. reflexivity. }
  by_command c "pub"%string E2.
  { destruct (falsy _ || falsy _); [discriminate|]. intros H. inversion H.
    exists "Failed to publish:"%string. reflexivity. }
  by_command c "topics"%string E3.
  { intros H. inversion H. exists "Failed to list topics:"%string. reflexivity. }
  by_command c "peers"%string E4.
  { destruct (falsy _); [discriminate|]. intros H. inversion H.
    exists "Failed to list peers:"%string. reflexivity. }
  by_command c "info"%string E5.
  { cbn. generalize (id_addresses id). intros l.
    induction l as [|x l IH]; [discriminate | exact IH]. }
  by_command c "swarm"%string E6.
  { intros H. inversion H. exists "Error processing command:"%string. reflexivity. }
  by_command c "quit"%string E7.
  { intros H. inversion H. exists "Error processing command:"%string. reflexivity. }
  discriminate.
Qed.

(** C8: when the node rejects the call of [subscribe], [publish],
    [listTopics] or [listPeers], the operation catches the rejection and
    prints one line naming the failure; the console prompts again and stays
    alive.  No command whose call is rejected goes without such a line. *)
Theorem facade_failure_reported (id : identity) (s : state) (e : error) :
  exited s = false ->
  (forall input topic rest,
      split space (trim input) = lit "sub" :: topic :: rest -> topic <> [] ->
      reported id s input (pubsub_subscribe topic) "Failed to subscribe:" e)
  /\
  (forall input topic word rest,
      split space (trim input) = lit "pub" :: topic :: word :: rest ->
      topic <> [] -> word <> [] ->
      reported id s input
        (pubsub_publish topic (uint8ArrayFromString (join space (word :: rest))))
        "Failed to publish:" e)
  /\
  (forall input rest,
      split space (trim input) = lit "topics" :: rest ->
      reported id s input pubsub_ls "Failed to list topics:" e)
  /\
  (forall input topic rest,
      split space (trim input) = lit "peers" :: topic :: rest -> topic <> [] ->
      reported id s input (pubsub_peers topic) "Failed to list peers:" e)
  /\
  (forall input t',
      on_rejection (onLine id input) e = Some t' ->
      exists label,
        t' = Emit (console_error [AStr (lit label); AErr e])
               (Emit rl_prompt (Ret tt))).
Proof.
  intros Hlive. unfold reported.
  split; [|split; [|split; [|split; [|intros input t'; apply rejection_reported]]]].
  - intros input [|c topic] rest Hparse Hne; [congruence|].
    eexists. split; [run_two Hlive; reflexivity|]. split; reflexivity.
  - intros input [|c topic] [|d word] rest Hparse Hne Hne'; try congruence.
    eexists. split; [run_two Hlive; reflexivity|]. split; reflexivity.
  - intros input rest Hparse.
    eexists. split; [run_two Hlive; reflexivity|]. split; reflexivity.
  - intros input [|c topic] rest Hparse Hne; [congruence|].
    eexists. split; [run_two Hlive; reflexivity|]. split; reflexivity.
Qed.

Lemma facade_failure_reported_witness :
  exited initial = false
  /\ reported sample_identity initial (lit "sub news")
       (pubsub_subscribe (lit "news")) "Failed to subscribe:" TypeError
  /\ reported sample_identity initial (lit "pub news hello world")
       (pubsub_publish (lit "news") (uint8ArrayFromString (lit "hello world")))
       "Failed to publish:" TypeError
  /\ reported sample_identity initial (lit "topics")
       pubsub_ls "Failed to list topics:" TypeError
  /\ reported sample_identity initial (lit "peers news")
       (pubsub_peers (lit "news")) "Failed to list peers:" TypeError
  /\ (exists label,
        Emit (console_error [AStr (lit "Error processing command:"); AErr TypeError])
          (Emit rl_prompt (Ret tt)) =
        Emit (console_error [AStr (lit label); AErr TypeError])
          (Emit rl_prompt (Ret tt))).
Proof.
  split; [reflexivity|].
  destruct (facade_failure_reported sample_identity initial TypeError eq_refl)
    as (Hsub & Hpub & Htopics & Hpeers & Hany).
  split; [|split; [|split; [|split]]].
  - apply (Hsub (lit "sub news") (lit "news") []); [reflexivity | discriminate].
  - apply (Hpub (lit "pub news hello world") (lit "news") (lit "hello") [lit "world"]);
      [reflexivity | discriminate | discriminate].
  - apply (Htopics (lit "topics") []). reflexivity.
  - apply (Hpeers (lit "peers news") (lit "news") []); [reflexivity | discriminate].
  - apply (Hany (lit "swarm")). reflexivity.
Defined.

(** ** Counting the calls of [node.stop()] *)

Lemma exec_stop_calls t s :
  stop_calls (snd (exec t s)) = if is_stop_call (first_call t) then 1%nat else 0%nat.
Proof.
  induction t as [a|e|o k IH|c k IH|code]; simpl.
  - reflexivity.
  - reflexivity.
  - destruct (exec k s) as [s' out]. exact IH.
  - destruct c; reflexivity.
  - reflexivity.
Qed.

Lemma exec_calm t s : awaits_once t -> calm s -> calm (fst (exec t s)).
Proof.
  unfold calm. induction t as [a|e|o k IH|c k IH|code]; simpl; intros Hk Hs.
  - exact Hs.
  - exact Hs.
  - specialize (IH Hk Hs). destruct (exec k s). exact IH.
  - constructor; [exact Hk | exact Hs].
  - exact Hs.
Qed.

Lemma take_Forall {X} (P : nat * X -> Prop) n l x rest :
  take n l = Some (x, rest) -> Forall P l -> P (n, x) /\ Forall P rest.
Proof.
  revert x rest. induction l as [|[m y] l IH]; simpl; intros x rest H Hl.
  - discriminate.
  - inversion Hl as [|? ? Hy Hl']; subst.
    destruct (Nat.eqb n m) eqn:E.
    + apply Nat.eqb_eq in E. subst m. inversion H; subst. auto.
    + destruct (take n l) as [[z r']|] eqn:Et; [|discriminate].
      inversion H; subst. destruct (IH _ _ eq_refl Hl') as [Hx Hr]. auto.
Qed.

Lemma step_calm id s e : calm s -> calm (fst (step id s e)).
Proof.
  intros Hs. unfold step. destruct (exited s) eqn:Hlive; [exact Hs|].
  destruct e as [input| |n r|n msg].
  - apply exec_calm; auto using onLine_awaits_once.
  - apply exec_calm; auto using onSIGINT_awaits_once.
  - destruct (take n (pending s)) as [[k rest]|] eqn:Et; [|exact Hs].
    destruct (take_Forall _ _ _ _ _ Et Hs) as [Hk Hrest].
    apply exec_calm; [apply quiet_awaits_once, Hk | exact Hrest].
  - destruct (lookup n (callbacks s)); [|exact Hs].
    apply exec_calm; auto using quiet_awaits_once, onMessage_quiet.
Qed.

Lemma step_stop_calls id s e : calm s ->
  stop_calls (snd (step id s e)) =
  if negb (exited s) && is_trigger e then 1%nat else 0%nat.
Proof.
  intros Hs. unfold step. destruct (exited s) eqn:Hlive; [reflexivity|].
  destruct e as [input| |n r|n msg]; cbn [negb andb].
  - rewrite exec_stop_calls, onLine_first_call. reflexivity.
  - reflexivity.
  - destruct (take n (pending s)) as [[k rest]|] eqn:Et; [|reflexivity].
    destruct (take_Forall _ _ _ _ _ Et Hs) as [Hk Hrest].
    rewrite exec_stop_calls, quiet_first_call by apply Hk. reflexivity.
  - destruct (lookup n (callbacks s)); [|reflexivity].
    rewrite exec_stop_calls, quiet_first_call by apply onMessage_quiet. reflexivity.
Qed.

Lemma stop_calls_app a b : stop_calls (a ++ b) = (stop_calls a + stop_calls b)%nat.
Proof. unfold stop_calls. rewrite filter_app, length_app. reflexivity. Qed.

(** C1, as the code has it: there is no "stopped" flag; every shutdown
    trigger ([quit] line or SIGINT) that reaches the live process calls
    [node.stop()] once, so a run makes as many stop calls as it handles
    triggers. *)
Theorem each_trigger_stops_once (id : identity) (evs : list event) :
  stop_calls (snd (run id initial evs)) = triggers_handled id initial evs.
Proof.
  assert (Hinit : calm initial) by constructor.
  revert Hinit. generalize initial.
  induction evs as [|e evs IH]; intros s Hs; simpl; [reflexivity|].
  pose proof (step_calm id s e Hs) as Hs1.
  pose proof (step_stop_calls id s e Hs) as H1.
  destruct (step id s e) as [s1 out1]. simpl in *.
  specialize (IH s1 Hs1). destruct (run id s1 evs) as [s2 out2]. simpl in *.
  rewrite stop_calls_app, H1, IH. reflexivity.
Qed.

(** One [quit], and nothing else that triggers a shutdown: one stop call. *)
Example quit_alone_stops_once :
  stop_calls (snd (run sample_identity initial
                     [Line (lit "quit"); Settled 0 (Resolved VUndefined)])) = 1%nat.
Proof. reflexivity. Qed.

(** C1, counterexample: SIGINT delivered while the stop call of [quit] is
    in flight calls [node.stop()] a second time. *)
Lemma signal_during_quit_stops_twice :
  snd (run sample_identity initial [Line (lit "quit"); SIGINT]) =
    [Eff (console_log [AStr (lit "Shutting down...")]);
     NodeCall 0 node_stop;
     Eff (console_log [AStr (newline :: lit "Shutting down IPFS node...")]);
     NodeCall 1 node_stop]
  /\ stop_calls (snd (run sample_identity initial [Line (lit "quit"); SIGINT]))
     <> 1%nat.
Proof. split; [reflexivity | discriminate]. Qed.

(** ** Order of dispatch and prompt *)

Lemma catch_then_prompt (t : task unit) :
  no_prompt t ->
  prompts_last
    (try_catch t
       (fun err => logError [AStr (lit "Error processing command:"); AErr err]) ;;
     prompt).
Proof.
  induction t as [a|e|o k IH|c k IH|code]; simpl.
  - intros _. destruct a. constructor.
  - intros _. constructor; [discriminate | constructor].
  - intros [Ho Hk]. constructor; auto.
  - intros [_ Hk]. constructor. intros r. apply IH, Hk.
  - intros _. constructor.
Qed.


















(** ** Bit operations as arithmetic *)

Ltac divmod := Z.div_mod_to_equations; lia.

Lemma lor_mul_low a b n : 0 <= n -> 0 <= b < 2 ^ n ->
  Z.lor (a * 2 ^ n) b = a * 2 ^ n + b.
Proof.
  intros Hn Hb.
  assert (Hland : Z.land (a * 2 ^ n) b = 0).
  { apply Z.bits_inj'. intros m Hm. rewrite Z.land_spec, Z.bits_0.
    destruct (Z.ltb_spec m n) as [Hlt|Hge].
    - rewrite Z.mul_pow2_bits_low by lia. reflexivity.
    - destruct (Z.eq_dec b 0) as [->|Hb0].
      + rewrite Z.bits_0. apply andb_false_r.
      + rewrite (Z.bits_above_log2 b m); [apply andb_false_r | lia |].
        assert (Z.log2 b < n) by (apply Z.log2_lt_pow2; lia). lia. }
  rewrite <- Z.lxor_lor by exact Hland.
  symmetry. apply Z.add_nocarry_lxor. exact Hland.
Qed.

Lemma land_low x n : 0 <= n -> Z.land x (Z.ones n) = x mod 2 ^ n.
Proof. intros. apply Z.land_ones. assumption. Qed.

Lemma land_1023 x : Z.land x 0x3FF = x mod 1024.
Proof. apply (land_low x 10). lia. Qed.

Lemma land_63 x : Z.land x 0x3F = x mod 64.
Proof. apply (land_low x 6). lia. Qed.

Lemma land_31 x : Z.land x 0x1F = x mod 32.
Proof. apply (land_low x 5). lia. Qed.

Lemma land_15 x : Z.land x 0xF = x mod 16.
Proof. apply (land_low x 4). lia. Qed.

Lemma land_7 x : Z.land x 0x7 = x mod 8.
Proof. apply (land_low x 3). lia. Qed.

Lemma continuation_byte x : Z.lor 0x80 (Z.land x 0x3F) = 128 + x mod 64.
Proof.
  rewrite land_63. change 0x80 with (1 * 2 ^ 7).
  rewrite lor_mul_low; [reflexivity | lia |].
  change (2 ^ 7) with 128. pose proof (Z.mod_pos_bound x 64). lia.
Qed.

Lemma accumulate acc b :
  Z.lor (Z.shiftl acc 6) (Z.land b 0x3F) = acc * 64 + b mod 64.
Proof.
  rewrite land_63, Z.shiftl_mul_pow2 by lia.
  rewrite lor_mul_low; [reflexivity | lia |].
  apply Z.mod_pos_bound. reflexivity.
Qed.

Lemma utf8_encode_cp_arith cp : 0 <= cp < 0x110000 ->
  utf8_encode_cp cp = encode_arith cp.
Proof.
  intros Hcp. unfold utf8_encode_cp, encode_arith.
  rewrite !continuation_byte, !Z.shiftr_div_pow2 by lia.
  change (2 ^ 6) with 64. change (2 ^ 12) with 4096. change (2 ^ 18) with 262144.
  destruct (Z.ltb_spec cp 0x80); [reflexivity|].
  destruct (Z.ltb_spec cp 0x800).
  { change 0xC0 with (3 * 2 ^ 6). rewrite lor_mul_low; [reflexivity | lia |].
    change (2 ^ 6) with 64. divmod. }
  destruct (Z.ltb_spec cp 0x10000).
  { change 0xE0 with (7 * 2 ^ 5). rewrite lor_mul_low; [reflexivity | lia |].
    change (2 ^ 5) with 32. divmod. }
  change 0xF0 with (15 * 2 ^ 4). rewrite lor_mul_low; [reflexivity | lia |].
  change (2 ^ 4) with 16. divmod.
Qed.

(** ** Decoding well-formed sequences *)

Ltac unfold_decoder :=
  cbn [utf8_decode]; unfold utf8_lead;
  cbn [bytes_needed code_point lower_boundary upper_boundary bytes_seen
       utf8_initial app].

Ltac tests :=
  repeat (unfold_decoder;
          match goal with
          | |- context [?a =? ?b] =>
              destruct (Z.eqb_spec a b); try (exfalso; lia); cbn [andb orb]
          | |- context [?a <=? ?b] =>
              destruct (Z.leb_spec a b); try (exfalso; lia); cbn [andb orb]
          | |- context [?a <? ?b] =>
              destruct (Z.ltb_spec a b); try (exfalso; lia); cbn [andb orb]
          end);
  unfold_decoder.

Lemma decode1 a r : 0 <= a <= 0x7F ->
  utf8_decode utf8_initial (a :: r) = a :: utf8_decode utf8_initial r.
Proof. intros Ha. tests. reflexivity. Qed.

Lemma decode2 a b r : 0xC2 <= a <= 0xDF -> 0x80 <= b <= 0xBF ->
  utf8_decode utf8_initial (a :: b :: r) =
  code_units (a mod 32 * 64 + b mod 64) ++ utf8_decode utf8_initial r.
Proof.
  intros Ha Hb. tests. rewrite accumulate, land_31. reflexivity.
Qed.

Lemma decode3 a b c r :
  0xE0 <= a <= 0xEF -> 0x80 <= b <= 0xBF -> 0x80 <= c <= 0xBF ->
  (a = 0xE0 -> 0xA0 <= b) -> (a = 0xED -> b <= 0x9F) ->
  utf8_decode utf8_initial (a :: b :: c :: r) =
  code_units ((a mod 16 * 64 + b mod 64) * 64 + c mod 64)
    ++ utf8_decode utf8_initial r.
Proof.
  intros Ha Hb Hc Hlo Hhi. tests.
  all: rewrite !accumulate, land_15; reflexivity.
Qed.

Lemma decode4 a b c d r :
  0xF0 <= a <= 0xF4 -> 0x80 <= b <= 0xBF -> 0x80 <= c <= 0xBF ->
  0x80 <= d <= 0xBF ->
  (a = 0xF0 -> 0x90 <= b) -> (a = 0xF4 -> b <= 0x8F) ->
  utf8_decode utf8_initial (a :: b :: c :: d :: r) =
  code_units (((a mod 8 * 64 + b mod 64) * 64 + c mod 64) * 64 + d mod 64)
    ++ utf8_decode utf8_initial r.
Proof.
  intros Ha Hb Hc Hd Hlo Hhi. tests.
  all: rewrite !accumulate, land_7; reflexivity.
Qed.

Lemma decode_encode_cp cp r : scalar cp ->
  utf8_decode utf8_initial (utf8_encode_cp cp ++ r) =
  code_units cp ++ utf8_decode utf8_initial r.
Proof.
  intros Hcp. unfold scalar in Hcp.
  rewrite utf8_encode_cp_arith by lia. unfold encode_arith.
  destruct (Z.ltb_spec cp 0x80).
  { cbn [app]. rewrite decode1 by lia. unfold code_units.
    destruct (Z.ltb_spec cp 0x10000); [reflexivity | lia]. }
  destruct (Z.ltb_spec cp 0x800).
  { cbn [app]. rewrite decode2 by divmod. f_equal. f_equal. divmod. }
  destruct (Z.ltb_spec cp 0x10000).
  { cbn [app]. rewrite decode3 by divmod. f_equal. f_equal. divmod. }
  cbn [app]. rewrite decode4 by divmod. f_equal. f_equal. divmod.
Qed.

Lemma code_units_bmp c : 0 <= c < 0x10000 -> code_units c = [c].
Proof.
  intros H. unfold code_units. destruct (Z.ltb_spec c 0x10000); [reflexivity | lia].
Qed.

Lemma code_units_pair c d :
  0xD800 <= c <= 0xDBFF -> 0xDC00 <= d <= 0xDFFF ->
  code_units (pair_code_point c d) = [c; d].
Proof.
  intros Hc Hd. unfold code_units, pair_code_point.
  rewrite Z.shiftl_mul_pow2, Z.shiftr_div_pow2, land_1023 by lia.
  change (2 ^ 10) with 1024.
  destruct (Z.ltb_spec (65536 + (c - 55296) * 1024 + (d - 56320)) 65536); [lia|].
  f_equal; [|f_equal]; divmod.
Qed.

Lemma surrogate_bounds c :
  (isHighSurrogate c = true <-> 0xD800 <= c <= 0xDBFF) /\
  (isLowSurrogate c = true <-> 0xDC00 <= c <= 0xDFFF).
Proof.
  unfold isHighSurrogate, isLowSurrogate.
  rewrite !andb_true_iff, !Z.leb_le. tauto.
Qed.

Lemma roundtrip_length n : forall s, (List.length s <= n)%nat ->
  well_formed s = true -> uint8ArrayToString (uint8ArrayFromString s) = s.
Proof.
  unfold uint8ArrayToString.
  induction n as [|n IH]; intros [|c r] Hlen Hwf; try reflexivity.
  { simpl in Hlen. lia. }
  simpl in Hlen. cbn [well_formed] in Hwf. cbn [uint8ArrayFromString].
  apply andb_true_iff in Hwf. destruct Hwf as [Hrange Hwf].
  apply andb_true_iff in Hrange. destruct Hrange as [Hlo Hhi].
  apply Z.leb_le in Hlo, Hhi.
  destruct (surrogate_bounds c) as [Hh Hl].
  destruct (isHighSurrogate c) eqn:Ehigh.
  - destruct r as [|d r']; [discriminate|].
    apply andb_true_iff in Hwf. destruct Hwf as [Hd Hwf].
    rewrite Hd. destruct (surrogate_bounds d) as [_ Hdl].
    apply Hdl in Hd. assert (Hc : 0xD800 <= c <= 0xDBFF) by (apply Hh; reflexivity).
    rewrite decode_encode_cp.
    + rewrite code_units_pair by assumption. cbn [app]. f_equal. f_equal.
      apply IH; [simpl in Hlen; lia | exact Hwf].
    + unfold scalar, pair_code_point. rewrite Z.shiftl_mul_pow2 by lia.
      change (2 ^ 10) with 1024. lia.
  - apply andb_true_iff in Hwf. destruct Hwf as [Hnl Hwf].
    apply negb_true_iff in Hnl. rewrite Hnl.
    assert (Hns : scalar c).
    { unfold scalar.
      destruct (Z.lt_ge_cases c 0xD800); [lia|].
      destruct (Z.le_gt_cases c 0xDBFF).
      - assert (false = true) by (apply Hh; lia). discriminate.
      - destruct (Z.le_gt_cases c 0xDFFF); [|lia].
        assert (isLowSurrogate c = true) by (apply Hl; lia). congruence. }
    rewrite decode_encode_cp by exact Hns.
    rewrite code_units_bmp by lia. cbn [app]. f_equal.
    apply IH; [lia | exact Hwf].
Qed.

(** C5: for a string without a surrogate on its own, encoding to wire bytes
    and decoding them again gives the string back; [publish] hands these
    bytes to the node, and the subscription callback that receives them
    prints the published text. *)
Theorem published_text_is_received (topic M : jsstring) (peer : jsstring) :
  well_formed M = true ->
  uint8ArrayToString (uint8ArrayFromString M) = M
  /\ first_call (publish topic M) =
       Some (pubsub_publish topic (uint8ArrayFromString M))
  /\ onMessage topic {| from := peer; data := uint8ArrayFromString M |} =
       log [AStr (newline :: lit "Received message on " ++ topic ++ lit " from "
                    ++ peer ++ lit ":");
            AStr M].
Proof.
  intros Hwf.
  assert (Hround : uint8ArrayToString (uint8ArrayFromString M) = M).
  { apply (roundtrip_length (List.length M)); [apply Nat.le_refl | exact Hwf]. }
  split; [exact Hround|]. split; [reflexivity|].
  unfold onMessage. cbn [from data]. rewrite Hround. reflexivity.
Qed.

Lemma published_text_is_received_witness :
  let M := lit "hi " ++ [0xE9; 0x20AC; 0xD83D; 0xDE00] in
  well_formed M = true
  /\ uint8ArrayToString (uint8ArrayFromString M) = M
  /\ first_call (publish (lit "news") M) =
       Some (pubsub_publish (lit "news") (uint8ArrayFromString M))
  /\ onMessage (lit "news") {| from := lit "QmPeer"; data := uint8ArrayFromString M |} =
       log [AStr (newline :: lit "Received message on " ++ lit "news" ++ lit " from "
                    ++ lit "QmPeer" ++ lit ":");
            AStr M].
Proof.
  split; [reflexivity|].
  apply (published_text_is_received (lit "news")
           (lit "hi " ++ [0xE9; 0x20AC; 0xD83D; 0xDE00]) (lit "QmPeer")).
  reflexivity.
Defined.

(** A surrogate on its own does not survive the round trip. *)
Example lone_surrogate_is_replaced :
  uint8ArrayToString (uint8ArrayFromString [0xD800]) = [replacement].
Proof. reflexivity. Qed.

(** ** Decoding arbitrary bytes *)










(** ** Rounding and the range of the ports *)

Lemma scale_pos : 0 < Double.scale.
Proof. unfold Double.scale. apply Z.pow_pos_nonneg; lia. Qed.

Lemma pow_1127 : 2 ^ 1127 = 2 ^ 53 * Double.scale.
Proof. unfold Double.scale. rewrite <- Z.pow_add_r by lia. reflexivity. Qed.

(** Below 2^53 (that is 2^1127 units) the last place is at most one unit of
    the integers. *)
Lemma last_place_bound x : 0 <= x < 2 ^ 1127 ->
  0 <= Z.max 0 (Z.log2 x - 52) <= 1074.
Proof.
  intros Hx. destruct (Z.eq_dec x 0) as [->|Hx0]; [cbn; lia|].
  assert (Z.log2 x < 1127) by (apply Z.log2_lt_pow2; lia).
  pose proof (Z.log2_nonneg x). lia.
Qed.

Section Rounding.

Variables (p k c : Z).
Hypothesis Hk : 0 <= k.
Hypothesis Hp : 0 <= p.
Hypothesis Hx : p / 2 ^ k < 2 ^ 1127.

Let e := Z.max 0 (Z.log2 (p / 2 ^ k) - 52).

Lemma split_scale :
  0 <= e <= 1074 /\ Double.scale = 2 ^ (1074 - e) * 2 ^ e /\
  2 ^ (k + e) = 2 ^ k * 2 ^ e /\ 0 < 2 ^ k /\ 0 < 2 ^ e /\ 0 < 2 ^ (1074 - e).
Proof.
  assert (He : 0 <= e <= 1074).
  { apply last_place_bound. split; [|exact Hx].
    apply Z.div_pos; [lia | apply Z.pow_pos_nonneg; lia]. }
  split; [exact He|]. split.
  { unfold Double.scale. rewrite <- Z.pow_add_r by lia. f_equal. lia. }
  split; [apply Z.pow_add_r; lia|].
  repeat split; apply Z.pow_pos_nonneg; lia.
Qed.

(** Rounding does not cross an integer above. *)
Lemma round_shift_le :
  p <= c * Double.scale * 2 ^ k -> Double.round_shift p k <= c * Double.scale.
Proof.
  intros Hle. destruct split_scale as (He & Hs & Hd & HK & HE & HF).
  unfold Double.round_shift. fold e.
  destruct (Z.eqb_spec (k + e) 0) as [Hz|Hnz].
  { assert (k = 0) by lia. subst k. change (2 ^ 0) with 1 in Hle. lia. }
  assert (Hhalf : 0 < 2 ^ (k + e - 1)) by (apply Z.pow_pos_nonneg; lia).
  pose proof (Z.div_mod p (2 ^ (k + e)) ltac:(lia)) as Hdm.
  pose proof (Z.mod_pos_bound p (2 ^ (k + e)) ltac:(lia)) as Hr.
  set (q := p / 2 ^ (k + e)) in *. set (r := p mod 2 ^ (k + e)) in *.
  rewrite Hd in *. rewrite Hs in *.
  set (K := 2 ^ k) in *. set (E := 2 ^ e) in *. set (F := 2 ^ (1074 - e)) in *.
  destruct ((2 ^ (k + e - 1) <? r) || ((r =? 2 ^ (k + e - 1)) && Z.odd q)) eqn:Hup.
  - assert (0 < r).
    { apply orb_true_iff in Hup. destruct Hup as [H|H].
      - apply Z.ltb_lt in H. lia.
      - apply andb_true_iff in H. destruct H as [H _]. apply Z.eqb_eq in H. lia. }
    assert (q < c * F) by nia. nia.
  - nia.
Qed.

(** Rounding does not cross an integer below. *)
Lemma round_shift_ge :
  c * Double.scale * 2 ^ k <= p -> c * Double.scale <= Double.round_shift p k.
Proof.
  intros Hle. destruct split_scale as (He & Hs & Hd & HK & HE & HF).
  unfold Double.round_shift. fold e.
  destruct (Z.eqb_spec (k + e) 0) as [Hz|Hnz].
  { assert (k = 0) by lia. subst k. change (2 ^ 0) with 1 in Hle. lia. }
  pose proof (Z.div_mod p (2 ^ (k + e)) ltac:(lia)) as Hdm.
  pose proof (Z.mod_pos_bound p (2 ^ (k + e)) ltac:(lia)) as Hr.
  set (q := p / 2 ^ (k + e)) in *. set (r := p mod 2 ^ (k + e)) in *.
  rewrite Hd in *. rewrite Hs in *.
  set (K := 2 ^ k) in *. set (E := 2 ^ e) in *. set (F := 2 ^ (1074 - e)) in *.
  assert (c * F <= q) by nia.
  destruct ((2 ^ (k + e - 1) <? r) || ((r =? 2 ^ (k + e - 1)) && Z.odd q)); nia.
Qed.

End Rounding.

(** Integers below 2^53 are doubles. *)
Lemma round_int c : 0 <= c < 2 ^ 53 ->
  Double.round_shift (c * Double.scale) 0 = c * Double.scale.
Proof.
  intros Hc. pose proof scale_pos as Hs.
  assert (Hx : c * Double.scale / 2 ^ 0 < 2 ^ 1127).
  { change (2 ^ 0) with 1. rewrite Z.div_1_r, pow_1127. nia. }
  apply Z.le_antisymm.
  - apply round_shift_le; [lia | nia | exact Hx | change (2 ^ 0) with 1; lia].
  - apply round_shift_ge; [lia | nia | exact Hx | change (2 ^ 0) with 1; lia].
Qed.

Lemma getRandomPort_range random lo hi :
  0 <= random < Double.scale -> 0 <= lo <= hi -> hi < 2 ^ 53 ->
  lo <= getRandomPort random (Double.of_int lo) (Double.of_int hi) <= hi.
Proof.
  intros Hr Hlo Hhi. pose proof scale_pos as Hs.
  unfold getRandomPort, port_sum, Double.sub, Double.mul, Double.add,
    Double.floor, Double.of_int.
  replace (hi * Double.scale - lo * Double.scale)
    with ((hi - lo) * Double.scale) by ring.
  rewrite round_int by lia.
  set (w := hi - lo).
  assert (Hw : 0 <= w < 2 ^ 53) by (unfold w; lia).
  set (m := Double.round_shift (random * (w * Double.scale)) 1074).
  assert (Hm : 0 * Double.scale <= m <= w * Double.scale).
  { assert (Hx : random * (w * Double.scale) / 2 ^ 1074 < 2 ^ 1127).
    { fold Double.scale.
      replace (random * (w * Double.scale)) with (random * w * Double.scale) by ring.
      rewrite Z.div_mul by lia. rewrite pow_1127. nia. }
    split.
    - apply round_shift_ge; [lia | nia | exact Hx | fold Double.scale; nia].
    - apply round_shift_le; [lia | nia | exact Hx | fold Double.scale; nia]. }
  set (t := Double.round_shift (m + lo * Double.scale) 0).
  assert (Ht : lo * Double.scale <= t <= hi * Double.scale).
  { assert (Hx : (m + lo * Double.scale) / 2 ^ 0 < 2 ^ 1127).
    { change (2 ^ 0) with 1. rewrite Z.div_1_r, pow_1127. unfold w in *. nia. }
    split.
    - apply round_shift_ge; [lia | nia | exact Hx | change (2 ^ 0) with 1; lia].
    - apply round_shift_le;
        [lia | nia | exact Hx | change (2 ^ 0) with 1; unfold w in *; lia]. }
  split.
  - apply Z.div_le_lower_bound; lia.
  - apply Z.div_le_upper_bound; lia.
Qed.

(** [Double] agrees with the specification of binary64 of the Standard
    Library on the sum [random * (max - min) + min], here at 1 - 2^-52, at
    0.3, at the smallest positive double and on two ties among subnormal
    numbers. *)
Example port_sum_agrees_below_one :
  units (spec_port_sum (binary64 (2 ^ 52 - 1) (-52)) (binary64 4002 0)
           (binary64 4999 0)) =
  Some (port_sum below_one (Double.of_int 4002) (Double.of_int 4999)).
Proof. vm_compute. reflexivity. Qed.

Example port_sum_agrees_three_tenths :
  units (spec_port_sum (binary64 5404319552844595 (-54)) (binary64 5000 0)
           (binary64 5999 0)) =
  Some (port_sum (5404319552844595 * 2 ^ 1020) (Double.of_int 5000)
          (Double.of_int 5999)).
Proof. vm_compute. reflexivity. Qed.

Example port_sum_agrees_smallest :
  units (spec_port_sum (binary64 1 (-1074)) (binary64 7000 0) (binary64 7999 0)) =
  Some (port_sum 1 (Double.of_int 7000) (Double.of_int 7999)).
Proof. vm_compute. reflexivity. Qed.

Example mul_agrees_on_ties :
  units (SFmul 53 1024 (binary64 3 (-1074)) (binary64 1 (-1))) =
    Some (Double.mul 3 (2 ^ 1073))
  /\ units (SFmul 53 1024 (binary64 5 (-1074)) (binary64 1 (-1))) =
    Some (Double.mul 5 (2 ^ 1073)).
Proof. vm_compute. split; reflexivity. Qed.

(** Two sums of doubles as JavaScript computes them. *)
Example one_tenth_plus_two_tenths :
  Double.add (3602879701896397 * 2 ^ 1019) (3602879701896397 * 2 ^ 1020) =
  5404319552844596 * 2 ^ 1020.
Proof. vm_compute. reflexivity. Qed.

Example three_tenths_is_smaller :
  Double.representable (5404319552844595 * 2 ^ 1020) = true
  /\ Double.mul (3602879701896397 * 2 ^ 1019) (Double.of_int 3) =
     5404319552844596 * 2 ^ 1020.
Proof. vm_compute. split; reflexivity. Qed.





(** ** The repository path *)

Lemma lit_inj a b : lit a = lit b -> a = b.
Proof.
  unfold lit. intros H.
  rewrite <- (string_of_list_ascii_of_string a), <- (string_of_list_ascii_of_string b).
  f_equal. revert H. generalize (list_ascii_of_string a) (list_ascii_of_string b).
  intros l. induction l as [|x l IH]; intros [|y l'] H; try discriminate; auto.
  cbn [map] in H. inversion H as [[Hx Hl]].
  apply N2Z.inj in Hx. f_equal; [|apply IH; exact Hl].
  rewrite <- (ascii_N_embedding x), <- (ascii_N_embedding y), Hx. reflexivity.
Qed.

Lemma to_int_not_nil z : Z.to_int z <> Decimal.Pos Decimal.Nil
                         /\ Z.to_int z <> Decimal.Neg Decimal.Nil.
Proof.
  destruct z as [|p|p]; cbn; split; try discriminate; intros H; inversion H as [Hp];
    exact (DecimalPos.Unsigned.to_uint_nonnil p Hp).
Qed.

Lemma Number_toString_inj n m : Number_toString n = Number_toString m -> n = m.
Proof.
  unfold Number_toString. intros H. apply lit_inj in H.
  destruct (to_int_not_nil n) as [Hn1 Hn2]. destruct (to_int_not_nil m) as [Hm1 Hm2].
  pose proof (NilZero.isi (Z.to_int n) Hn1 Hn2) as Ein.
  pose proof (NilZero.isi (Z.to_int m) Hm1 Hm2) as Eim.
  rewrite H in Ein. rewrite Ein in Eim. inversion Eim as [E].
  apply DecimalZ.to_int_inj. exact E.
Qed.

Lemma lit_String a str : lit (String a str) = Z.of_N (N_of_ascii a) :: lit str.
Proof. reflexivity. Qed.

Ltac digit_code :=
  match goal with
  | |- context [Z.of_N (N_of_ascii ?a)] =>
      let v := eval vm_compute in (Z.of_N (N_of_ascii a)) in
      change (Z.of_N (N_of_ascii a)) with v
  end.

(** Reading the digits of [d] after a non-zero start [acc] is the Horner
    scheme of [Pos.of_uint_acc]. *)
Lemma decimal_value_acc d acc :
  fold_left (fun a c => 10 * a + (c - 48)) (lit (NilEmpty.string_of_uint d))
    (Z.pos acc) = Z.pos (Pos.of_uint_acc d acc).
Proof.
  revert acc.
  induction d as [|d IH|d IH|d IH|d IH|d IH|d IH|d IH|d IH|d IH|d IH];
    intros acc; [reflexivity|..];
    cbn [NilEmpty.string_of_uint Pos.of_uint_acc]; rewrite lit_String;
    cbn [fold_left]; rewrite <- IH; f_equal; digit_code; lia.
Qed.

Lemma decimal_value_uint d :
  decimal_value (lit (NilEmpty.string_of_uint d)) = Z.of_N (Pos.of_uint d).
Proof.
  unfold decimal_value.
  induction d as [|d IH|d IH|d IH|d IH|d IH|d IH|d IH|d IH|d IH|d IH];
    [reflexivity|exact IH|..];
    cbn [NilEmpty.string_of_uint Pos.of_uint]; rewrite lit_String;
    cbn [fold_left Z.of_N]; rewrite <- decimal_value_acc; digit_code; reflexivity.
Qed.

Lemma digits_uint d :
  forallb isDigit (lit (NilEmpty.string_of_uint d)) = true.
Proof.
  induction d as [|d IH|d IH|d IH|d IH|d IH|d IH|d IH|d IH|d IH|d IH];
    [reflexivity|..];
    cbn [NilEmpty.string_of_uint]; rewrite lit_String; cbn [forallb];
    rewrite IH; digit_code; reflexivity.
Qed.

Lemma unorm_leading_zero d l :
  Decimal.unorm d = Decimal.D0 l -> l = Decimal.Nil.
Proof.
  induction d as [|d IH|d IH|d IH|d IH|d IH|d IH|d IH|d IH|d IH|d IH];
    cbn [Decimal.unorm]; intros H; try discriminate H.
  - inversion H. reflexivity.
  - apply IH. exact H.
Qed.

Lemma to_uint_normal p : Pos.to_uint p = Decimal.unorm (Pos.to_uint p).
Proof.
  rewrite <- (DecimalPos.Unsigned.to_of (Pos.to_uint p)).
  rewrite DecimalPos.Unsigned.of_to. reflexivity.
Qed.

Lemma leading_zero_uint d rest :
  lit (NilEmpty.string_of_uint d) = 48 :: rest ->
  exists l, d = Decimal.D0 l.
Proof.
  destruct d; cbn [NilEmpty.string_of_uint]; rewrite ?lit_String;
    intros H; try discriminate H.
  eexists. reflexivity.
Qed.

(** The digits of a number that is not negative. *)
Lemma Number_toString_digits n :
  0 <= n ->
  Number_toString n <> []
  /\ forallb isDigit (Number_toString n) = true
  /\ decimal_value (Number_toString n) = n
  /\ (forall rest, Number_toString n = 48 :: rest -> rest = []).
Proof.
  intros Hn. destruct n as [|p|p]; [| |lia].
  - repeat split; try discriminate.
    intros rest H. inversion H. reflexivity.
  - unfold Number_toString. cbn [Z.to_int NilZero.string_of_int].
    pose proof (DecimalPos.Unsigned.to_uint_nonnil p) as Hnil.
    assert (E : NilZero.string_of_uint (Pos.to_uint p) =
                NilEmpty.string_of_uint (Pos.to_uint p)).
    { destruct (Pos.to_uint p); [congruence | reflexivity..]. }
    rewrite E. split; [|split; [|split]].
    + destruct (Pos.to_uint p); [congruence|..];
        cbn [NilEmpty.string_of_uint]; rewrite lit_String; discriminate.
    + apply digits_uint.
    + rewrite decimal_value_uint, DecimalPos.Unsigned.of_to. reflexivity.
    + intros rest H. destruct (leading_zero_uint _ _ H) as [l Hl].
      pose proof (to_uint_normal p) as Hnorm. rewrite Hl in Hnorm at 1.
      symmetry in Hnorm. apply unorm_leading_zero in Hnorm. subst l.
      exfalso. exact (DecimalPos.Unsigned.to_uint_nonzero p Hl).
Qed.

(** C7: the repository path is "./ipfs-repo-" followed by the decimal
    digits of the swarm port: at least one digit, only digits, no leading
    zero but for the port 0, and their decimal value is the swarm port.
    The path is fixed by the swarm port and by nothing else: two port sets
    have the same path exactly when their swarm ports are equal, whatever
    their other ports. *)
Theorem repo_path_is_prefix_and_decimal_port (p p' : PortSet) :
  0 <= swarmPort p ->
  (exists digits,
      repo (nodeOptions p) = lit "./ipfs-repo-" ++ digits
      /\ digits <> []
      /\ forallb isDigit digits = true
      /\ decimal_value digits = swarmPort p
      /\ (forall rest, digits = 48 :: rest -> rest = []))
  /\ (swarmPort p = swarmPort p' <->
      repo (nodeOptions p) = repo (nodeOptions p')).
Proof.
  intros Hpos. split.
  - exists (Number_toString (swarmPort p)).
    split; [reflexivity|]. apply Number_toString_digits. exact Hpos.
  - unfold nodeOptions, repoPath. cbn [repo]. split.
    + intros H. rewrite H. reflexivity.
    + intros H. apply app_inv_head in H. apply Number_toString_inj. exact H.
Qed.

Lemma repo_path_is_prefix_and_decimal_port_witness :
  let p := {| swarmPort := 4321; wsPort := 5000; apiPort := 6000;
              gatewayPort := 7000 |} in
  let p' := {| swarmPort := 4321; wsPort := 5998; apiPort := 6500;
               gatewayPort := 7777 |} in
  0 <= swarmPort p
  /\ (exists digits,
         repo (nodeOptions p) = lit "./ipfs-repo-" ++ digits
         /\ digits <> []
         /\ forallb isDigit digits = true
         /\ decimal_value digits = 4321
         /\ (forall rest, digits = 48 :: rest -> rest = []))
  /\ repo (nodeOptions p) = repo (nodeOptions p').
Proof.
  cbn zeta. split; [cbn; lia|].
  destruct (repo_path_is_prefix_and_decimal_port
              {| swarmPort := 4321; wsPort := 5000; apiPort := 6000;
                 gatewayPort := 7000 |}
              {| swarmPort := 4321; wsPort := 5998; apiPort := 6500;
                 gatewayPort := 7777 |}) as [Hform Hsame];
    [cbn; lia|].
  split; [exact Hform|]. apply Hsame. reflexivity.
Defined.

Example repo_path_4321 : repoPath 4321 = lit "./ipfs-repo-4321".
Proof. reflexivity. Qed.

(** * Further properties *)

(** ** White space around a line *)

Lemma trimStart_blank ws s : blank ws -> trimStart (ws ++ s) = trimStart s.
Proof.
  intros H. induction H as [|c ws Hc Hws IH]; [reflexivity|].
  cbn [app trimStart]. rewrite Hc. exact IH.
Qed.

Lemma trimStart_all_blank ws : blank ws -> trimStart ws = [].
Proof.
  intros H. rewrite <- (app_nil_r ws). rewrite trimStart_blank by exact H.
  reflexivity.
Qed.

Lemma trimStart_app x z :
  trimStart (x ++ z) =
  match trimStart x with
  | [] => trimStart z
  | _ :: _ => trimStart x ++ z
  end.
Proof.
  induction x as [|c x IH]; cbn [app trimStart].
  - destruct (trimStart z); reflexivity.
  - destruct (isWhiteSpace c); [exact IH | reflexivity].
Qed.

Lemma blank_rev ws : blank ws -> blank (rev ws).
Proof. unfold blank. apply Forall_rev. Qed.

Lemma trimEnd_blank s ws : blank ws -> trimEnd (s ++ ws) = trimEnd s.
Proof.
  intros H. unfold trimEnd. rewrite rev_app_distr.
  rewrite trimStart_blank by (apply blank_rev; exact H). reflexivity.
Qed.

Lemma trim_padding before s after : blank before -> blank after ->
  trim (before ++ s ++ after) = trim s.
Proof.
  intros Hb Ha. unfold trim. rewrite trimStart_blank by exact Hb.
  rewrite trimStart_app. destruct (trimStart s) as [|c t] eqn:E.
  - rewrite trimStart_all_blank by exact Ha. reflexivity.
  - apply trimEnd_blank. exact Ha.
Qed.

(** X1: white space before and after a line is ignored: the padded line is
    handled exactly as the line itself. *)
Theorem padding_is_ignored (id : identity) (s : state)
    (before input after : jsstring) :
  blank before -> blank after ->
  step id s (Line (before ++ input ++ after)) = step id s (Line input).
Proof.
  intros Hb Ha. unfold step, onLine, processCommand.
  rewrite trim_padding by assumption. reflexivity.
Qed.

Lemma padding_is_ignored_witness :
  blank [9; 32] /\ blank [32; 13]
  /\ step sample_identity initial (Line ([9; 32] ++ lit "sub news" ++ [32; 13])) =
     step sample_identity initial (Line (lit "sub news")).
Proof.
  assert (Hb : blank [9; 32]) by (repeat constructor).
  assert (Ha : blank [32; 13]) by (repeat constructor).
  split; [exact Hb|]. split; [exact Ha|].
  exact (padding_is_ignored sample_identity initial [9; 32] (lit "sub news")
           [32; 13] Hb Ha).
Defined.

(** ** Commands that call nothing *)

(** X2: [sub] and [peers] without a topic (no argument, or an empty one)
    print their usage line and the prompt and do not call the node. *)
Theorem topic_required (id : identity) (s : state) (input : jsstring)
    (verb : string) (args : list jsstring) :
  verb = "sub"%string \/ verb = "peers"%string ->
  split space (trim input) = lit verb :: args ->
  falsy (nth_error args 0) = true ->
  exited s = false ->
  step id s (Line input) = (s, [usage_topic verb; Eff rl_prompt]).
Proof.
  intros Hverb Hparse Hfalsy Hlive. rewrite step_live by assumption.
  unfold onLine, processCommand. rewrite Hparse.
  change (skipn 1 (lit verb :: args)) with args.
  change (nth_error (lit verb :: args) 0) with (Some (lit verb)).
  destruct Hverb; subst verb.
  - change (is_command (Some (lit "sub")) "sub") with true. cbn iota.
    rewrite Hfalsy. reflexivity.
  - change (is_command (Some (lit "peers")) "sub") with false.
    change (is_command (Some (lit "peers")) "pub") with false.
    change (is_command (Some (lit "peers")) "topics") with false.
    change (is_command (Some (lit "peers")) "peers") with true. cbn iota.
    rewrite Hfalsy. reflexivity.
Qed.

Lemma topic_required_witness :
  split space (trim (lit "peers")) = lit "peers" :: []
  /\ falsy (nth_error (@nil jsstring) 0) = true
  /\ step sample_identity initial (Line (lit "peers")) =
     (initial, [usage_topic "peers"; Eff rl_prompt]).
Proof.
  split; [reflexivity|]. split; [reflexivity|].
  apply (topic_required sample_identity initial (lit "peers") "peers" []);
    [right; reflexivity | reflexivity | reflexivity | reflexivity].
Defined.

(** X3: a line whose first word is none of the seven verbs (the empty line
    and [help] among them) prints the hint and the prompt; the node is not
    called and nothing else changes. *)
Theorem unknown_verb_is_reported (id : identity) (s : state)
    (input c : jsstring) :
  command_of input = Some c ->
  known_verb c = false ->
  exited s = false ->
  step id s (Line input) = (s, [unknown_command; Eff rl_prompt]).
Proof.
  intros Hc Hunknown Hlive. rewrite step_live by assumption.
  unfold onLine, processCommand. unfold command_of in Hc. rewrite Hc.
  unfold known_verb, verbs in Hunknown. cbn [existsb] in Hunknown.
  repeat (apply orb_false_iff in Hunknown;
          let H := fresh "H" in destruct Hunknown as [H Hunknown]).
  unfold is_command. rewrite H, H0, H1, H2, H3, H4, H5. reflexivity.
Qed.

Lemma unknown_verb_is_reported_witness :
  command_of (lit "help") = Some (lit "help")
  /\ known_verb (lit "help") = false
  /\ step sample_identity initial (Line (lit "help")) =
     (initial, [unknown_command; Eff rl_prompt]).
Proof.
  split; [reflexivity|]. split; [reflexivity|].
  apply (unknown_verb_is_reported sample_identity initial (lit "help") (lit "help"));
    reflexivity.
Defined.

Example empty_line_is_unknown :
  step sample_identity initial (Line []) = (initial, [unknown_command; Eff rl_prompt]).
Proof. reflexivity. Qed.

(** ** Printing lists *)

Lemma forEach_log_bind {X B} (l : list X) (f : X -> list arg) (k : unit -> task B) :
  bind (forEach l (fun x => log (f x))) k =
  fold_right (fun x t => Emit (console_log (f x)) t) (k tt) l.
Proof.
  induction l as [|x l IH]; [reflexivity|].
  cbn [forEach fold_right]. unfold log at 1. cbn [bind]. f_equal. exact IH.
Qed.

Lemma forEach_log {X} (l : list X) (f : X -> list arg) :
  forEach l (fun x => log (f x)) =
  fold_right (fun x t => Emit (console_log (f x)) t) (Ret tt) l.
Proof.
  induction l as [|x l IH]; [reflexivity|].
  cbn [forEach fold_right]. unfold log at 1. cbn [bind]. f_equal. exact IH.
Qed.

Lemma try_catch_emits {X A} (l : list X) (g : X -> effect) (t : task A) h :
  try_catch (fold_right (fun x k => Emit (g x) k) t l) h =
  fold_right (fun x k => Emit (g x) k) (try_catch t h) l.
Proof. induction l as [|x l IH]; [reflexivity|]. cbn. f_equal. exact IH. Qed.

Lemma bind_emits {X A B} (l : list X) (g : X -> effect) (t : task A)
    (k : A -> task B) :
  bind (fold_right (fun x k => Emit (g x) k) t l) k =
  fold_right (fun x k => Emit (g x) k) (bind t k) l.
Proof. induction l as [|x l IH]; [reflexivity|]. cbn. f_equal. exact IH. Qed.

Lemma exec_emits {X} (l : list X) (g : X -> effect) (t : task unit) s :
  exec (fold_right (fun x k => Emit (g x) k) t l) s =
  (fst (exec t s), map (fun x => Eff (g x)) l ++ snd (exec t s)).
Proof.
  induction l as [|x l IH]; cbn [fold_right map app exec].
  - destruct (exec t s); reflexivity.
  - rewrite IH. reflexivity.
Qed.

(** X4: [info] prints the identity fetched at start-up, the id and then
    every address in order, and the prompt; it does not call the node. *)
Theorem info_prints_identity (id : identity) (s : state) (input : jsstring)
    (args : list jsstring) :
  split space (trim input) = lit "info" :: args ->
  exited s = false ->
  step id s (Line input) =
    (s, Eff (console_log [AStr (newline :: lit "Node ID:"); AStr (id_id id)])
        :: Eff (console_log [AStr (lit "Addresses:")])
        :: map bullet (id_addresses id) ++ [Eff rl_prompt]).
Proof.
  intros Hparse Hlive. rewrite step_live by assumption.
  unfold onLine, processCommand. rewrite Hparse.
  cbn [nth_error]. 
  change (is_command (Some (lit "info")) "sub") with false.
  change (is_command (Some (lit "info")) "pub") with false.
  change (is_command (Some (lit "info")) "topics") with false.
  change (is_command (Some (lit "info")) "peers") with false.
  change (is_command (Some (lit "info")) "info") with true. cbn iota.
  unfold log at 1 2. cbn [bind try_catch exec].
  rewrite (forEach_log (id_addresses id) (fun a => [AStr (lit "- " ++ a)])).
  rewrite try_catch_emits, bind_emits, exec_emits.
  reflexivity.
Qed.

Lemma info_prints_identity_witness :
  split space (trim (lit "info")) = lit "info" :: []
  /\ exited initial = false
  /\ step sample_identity initial (Line (lit "info")) =
     (initial,
      Eff (console_log [AStr (newline :: lit "Node ID:"); AStr (id_id sample_identity)])
      :: Eff (console_log [AStr (lit "Addresses:")])
      :: map bullet (id_addresses sample_identity) ++ [Eff rl_prompt]).
Proof.
  split; [reflexivity|]. split; [reflexivity|].
  apply (info_prints_identity sample_identity initial (lit "info") []); reflexivity.
Defined.

(** ** Commands that list *)

Lemma settle_head id s n k r :
  exited s = false ->
  step id {| next_id := S n; pending := (n, k) :: pending s;
             callbacks := callbacks s; exited := exited s |} (Settled n r) =
  exec (k r) {| next_id := S n; pending := pending s;
                callbacks := callbacks s; exited := exited s |}.
Proof.
  intros Hlive. unfold step. cbn [exited pending next_id callbacks take].
  rewrite Hlive, Nat.eqb_refl. reflexivity.
Qed.

Ltac dispatch Hparse Hlive :=
  unfold run; rewrite step_live by assumption;
  unfold onLine, processCommand; rewrite Hparse;
  match goal with
  | |- context [skipn 1 (?x :: ?l)] => change (skipn 1 (x :: l)) with l
  end;
  repeat match goal with
    | |- context [nth_error (?x :: ?l) 0] =>
        change (nth_error (x :: l) 0) with (Some x)
    | |- context [nth_error (?x :: ?y :: ?l) 1] =>
        change (nth_error (x :: y :: l) 1) with (Some y)
    end;
  repeat match goal with
    | |- context [is_command (Some ?c) ?v] =>
        let b := eval vm_compute in (is_command (Some c) v) in
        change (is_command (Some c) v) with b; cbn iota
    end;
  cbn [falsy truthy negb orb strval].

(** X5: [topics] and [peers <topic>] whose call resolves with a list print
    the header, one line per element in the order the node gave them, and
    the prompt; an empty list prints the header alone and is no error. *)
Theorem listings_print_every_entry (id : identity) (s : state)
    (found : list jsstring) :
  exited s = false ->
  (forall input args,
      split space (trim input) = lit "topics" :: args ->
      run id s [Line input; Settled (next_id s) (Resolved (VStrings found))] =
        (settled_state s,
         NodeCall (next_id s) pubsub_ls
         :: Eff (console_log [AStr (newline :: lit "Subscribed topics:")])
         :: map bullet found ++ [Eff rl_prompt]))
  /\
  (forall input topic args,
      split space (trim input) = lit "peers" :: topic :: args -> topic <> [] ->
      run id s [Line input; Settled (next_id s) (Resolved (VStrings found))] =
        (settled_state s,
         NodeCall (next_id s) (pubsub_peers topic)
         :: Eff (console_log
                   [AStr (newline :: lit "Peers subscribed to " ++ topic ++ lit ":")])
         :: map bullet found ++ [Eff rl_prompt])).
Proof.
  intros Hlive. split.
  - intros input args Hparse. dispatch Hparse Hlive.
    unfold listTopics, await. cbn [bind try_catch exec register].
    rewrite settle_head by exact Hlive.
    unfold log at 1. cbn [bind try_catch forEachString].
    rewrite (forEach_log_bind found (fun a => [AStr (lit "- " ++ a)])).
    repeat (rewrite try_catch_emits || rewrite bind_emits).
    cbn [exec]. rewrite exec_emits. unfold settled_state. rewrite Hlive.
    cbn [try_catch bind prompt exec fst snd]. rewrite app_nil_r. reflexivity.
  - intros input [|c topic] args Hparse Hne; [congruence|].
    dispatch Hparse Hlive.
    unfold listPeers, await. cbn [bind try_catch exec register].
    rewrite settle_head by exact Hlive.
    unfold log at 1. cbn [bind try_catch forEachString].
    rewrite (forEach_log_bind found (fun a => [AStr (lit "- " ++ a)])).
    repeat (rewrite try_catch_emits || rewrite bind_emits).
    cbn [exec]. rewrite exec_emits. unfold settled_state. rewrite Hlive.
    cbn [try_catch bind prompt exec fst snd]. rewrite app_nil_r. reflexivity.
Qed.

Lemma listings_print_every_entry_witness :
  exited initial = false
  /\ run sample_identity initial
       [Line (lit "topics"); Settled 0 (Resolved (VStrings [lit "news"; lit "chat"]))] =
     (settled_state initial,
      NodeCall 0 pubsub_ls
      :: Eff (console_log [AStr (newline :: lit "Subscribed topics:")])
      :: map bullet [lit "news"; lit "chat"] ++ [Eff rl_prompt])
  /\ run sample_identity initial
       [Line (lit "peers news"); Settled 0 (Resolved (VStrings []))] =
     (settled_state initial,
      NodeCall 0 (pubsub_peers (lit "news"))
      :: Eff (console_log
                [AStr (newline :: lit "Peers subscribed to " ++ lit "news" ++ lit ":")])
      :: map bullet [] ++ [Eff rl_prompt]).
Proof.
  split; [reflexivity|]. split.
  - destruct (listings_print_every_entry sample_identity initial
                [lit "news"; lit "chat"] eq_refl) as [Htopics _].
    apply (Htopics (lit "topics") []). reflexivity.
  - destruct (listings_print_every_entry sample_identity initial [] eq_refl)
      as [_ Hpeers].
    apply (Hpeers (lit "peers news") (lit "news") []); [reflexivity | discriminate].
Defined.

(** X6: [swarm] whose call resolves with the connected peers prints their
    number, one line per peer in order, and the prompt; no peers at all is
    no error. *)
Theorem swarm_prints_every_peer (id : identity) (s : state) (input : jsstring)
    (args : list jsstring) (peers : list (jsstring * jsstring)) :
  split space (trim input) = lit "swarm" :: args ->
  exited s = false ->
  run id s [Line input; Settled (next_id s) (Resolved (VSwarmPeers peers))] =
    (settled_state s,
     NodeCall (next_id s) swarm_peers
     :: Eff (console_log [AStr (newline :: lit "Connected peers:");
                          ANum (Z.of_nat (List.length peers))])
     :: map peer_line peers ++ [Eff rl_prompt]).
Proof.
  intros Hparse Hlive. dispatch Hparse Hlive.
  unfold await. cbn [bind try_catch exec register].
  rewrite settle_head by exact Hlive.
  cbn [bind try_catch].
  rewrite (forEach_log peers
             (fun peer => [AStr (lit "- " ++ fst peer ++ lit ": " ++ snd peer)])).
  unfold log. cbn [bind try_catch].
  repeat (rewrite try_catch_emits || rewrite bind_emits).
  cbn [exec]. rewrite exec_emits. unfold settled_state. rewrite Hlive.
  cbn [try_catch bind prompt exec fst snd]. rewrite app_nil_r. reflexivity.
Qed.

Lemma swarm_prints_every_peer_witness :
  split space (trim (lit "swarm")) = lit "swarm" :: []
  /\ exited initial = false
  /\ run sample_identity initial
       [Line (lit "swarm");
        Settled 0 (Resolved (VSwarmPeers [(lit "QmPeer", lit "/ip4/10.0.0.1/tcp/4002")]))] =
     (settled_state initial,
      NodeCall 0 swarm_peers
      :: Eff (console_log [AStr (newline :: lit "Connected peers:"); ANum 1])
      :: map peer_line [(lit "QmPeer", lit "/ip4/10.0.0.1/tcp/4002")]
         ++ [Eff rl_prompt]).
Proof.
  split; [reflexivity|]. split; [reflexivity|].
  apply (swarm_prints_every_peer sample_identity initial (lit "swarm") []
           [(lit "QmPeer", lit "/ip4/10.0.0.1/tcp/4002")]); reflexivity.
Defined.

(** ** Publishing a line *)

Lemma split_nonempty sep s : split sep s <> [].
Proof.
  destruct s as [|c r]; cbn [split]; [discriminate|].
  destruct (c =? sep); [discriminate|].
  destruct (split sep r); discriminate.
Qed.

(** Splitting at the spaces and joining with spaces gives the string back. *)
Lemma join_split s : join space (split space s) = s.
Proof.
  induction s as [|c r IH]; [reflexivity|].
  cbn [split]. destruct (Z.eqb_spec c space) as [->|Hc].
  - pose proof (split_nonempty space r) as Hne.
    cbn [join]. destruct (split space r) as [|w ws]; [contradiction|].
    cbn [app]. rewrite IH. reflexivity.
  - destruct (split space r) as [|w ws] eqn:E.
    + exfalso. exact (split_nonempty space r E).
    + cbn [join] in *. destruct ws; cbn [app]; rewrite IH; reflexivity.
Qed.

Lemma split_head c r : (c =? space) = false ->
  exists w ws, split space (c :: r) = (c :: w) :: ws.
Proof.
  intros Hc. cbn [split]. rewrite Hc.
  destruct (split space r) as [|w ws] eqn:E.
  - exfalso. exact (split_nonempty space r E).
  - exists w, ws. reflexivity.
Qed.

(** X7: [pub <topic> <message>] publishes the rest of the line as it was
    typed, runs of spaces inside it included, encoded as UTF-8; when the node
    accepts it, the console confirms and prompts. *)
Theorem pub_publishes_rest_of_line (id : identity) (s : state)
    (topic : jsstring) (c : Z) (m : jsstring) (v : value) :
  clean topic -> topic <> [] ->
  (c =? space) = false ->
  isWhiteSpace (last (c :: m) c) = false ->
  exited s = false ->
  run id s [Line (lit "pub " ++ topic ++ space :: c :: m);
            Settled (next_id s) (Resolved v)] =
    (settled_state s,
     [NodeCall (next_id s) (pubsub_publish topic (uint8ArrayFromString (c :: m)));
      Eff (console_log [AStr (lit "Published message to " ++ topic)]);
      Eff rl_prompt]).
Proof.
  intros Hclean Hne Hc Hlast Hlive.
  assert (Hparse : split space (trim (lit "pub " ++ topic ++ space :: c :: m)) =
                   lit "pub" :: topic :: split space (c :: m)).
  { assert (Hm : c :: m <> []) by discriminate.
    rewrite (app_removelast_last c Hm) at 1.
    change (lit "pub " ++ topic ++ space :: removelast (c :: m) ++ [last (c :: m) c])
      with (112 :: (lit "ub " ++ topic ++ space :: removelast (c :: m)
                      ++ [last (c :: m) c])).
    replace (lit "ub " ++ topic ++ space :: removelast (c :: m) ++ [last (c :: m) c])
      with ((lit "ub " ++ topic ++ space :: removelast (c :: m))
              ++ [last (c :: m) c])
      by (rewrite <- !app_assoc; reflexivity).
    rewrite trim_clean by (reflexivity || exact Hlast).
    replace (112 :: (lit "ub " ++ topic ++ space :: removelast (c :: m))
               ++ [last (c :: m) c])
      with (lit "pub" ++ space :: (topic ++ space ::
              (removelast (c :: m) ++ [last (c :: m) c])))
      by (cbn [app lit list_ascii_of_string map]; rewrite <- !app_assoc;
          reflexivity).
    rewrite <- (app_removelast_last c Hm).
    rewrite split_piece by (repeat constructor).
    rewrite split_piece by exact Hclean. reflexivity. }
  destruct (split_head c m Hc) as (w & ws & Hsplit).
  pose proof (join_split (c :: m)) as Hjoin. rewrite Hsplit in Hparse, Hjoin.
  destruct topic as [|t0 topic]; [congruence|].
  dispatch Hparse Hlive.
  change (skipn 1 ((t0 :: topic) :: (c :: w) :: ws)) with ((c :: w) :: ws).
  rewrite Hjoin.
  unfold publish, await. cbn [bind try_catch exec register].
  rewrite settle_head by exact Hlive.
  unfold settled_state. rewrite Hlive. reflexivity.
Qed.

Lemma pub_publishes_rest_of_line_witness :
  clean (lit "news") /\ lit "news" <> []
  /\ isWhiteSpace (last (lit "hello   big world") 104) = false
  /\ run sample_identity initial
       [Line (lit "pub news hello   big world"); Settled 0 (Resolved VUndefined)] =
     (settled_state initial,
      [NodeCall 0 (pubsub_publish (lit "news")
                     (uint8ArrayFromString (lit "hello   big world")));
       Eff (console_log [AStr (lit "Published message to " ++ lit "news")]);
       Eff rl_prompt]).
Proof.
  assert (Hclean : clean (lit "news")) by (repeat constructor).
  split; [exact Hclean|]. split; [discriminate|]. split; [reflexivity|].
  apply (pub_publishes_rest_of_line sample_identity initial (lit "news") 104
           (lit "ello   big world") VUndefined);
    [exact Hclean | discriminate | reflexivity | reflexivity | reflexivity].
Defined.

(** ** Subscriptions *)

Lemma step_sub id s input topic args :
  split space (trim input) = lit "sub" :: topic :: args -> topic <> [] ->
  exited s = false ->
  exists k,
    step id s (Line input) =
      ({| next_id := S (next_id s); pending := (next_id s, k) :: pending s;
          callbacks := (next_id s, topic) :: callbacks s; exited := false |},
       [NodeCall (next_id s) (pubsub_subscribe topic)]).
Proof.
  intros Hparse Hne Hlive. destruct topic as [|c topic]; [congruence|].
  rewrite step_live by exact Hlive.
  unfold onLine, processCommand; rewrite Hparse.
  change (skipn 1 (lit "sub" :: (c :: topic) :: args)) with ((c :: topic) :: args).
  change (nth_error (lit "sub" :: (c :: topic) :: args) 0) with (Some (lit "sub")).
  change (is_command (Some (lit "sub")) "sub") with true. cbn iota.
  cbn [nth_error falsy truthy negb strval].
  unfold subscribe, await. cbn [bind try_catch exec register]. rewrite Hlive.
  eexists. reflexivity.
Qed.

Lemma exec_subscribed t s n topic :
  subscribed n topic s -> subscribed n topic (fst (exec t s)).
Proof.
  revert s. induction t as [u|e|o k IH|c k _|code]; intros s [Hl Hn].
  - split; assumption.
  - split; assumption.
  - cbn [exec]. specialize (IH s (conj Hl Hn)).
    destruct (exec k s) as [s' out]. exact IH.
  - cbn [exec fst]. unfold subscribed. cbn [callbacks next_id]. split; [|lia].
    destruct c; cbn [register]; try exact Hl.
    cbn [lookup]. replace (Nat.eqb n (next_id s)) with false; [exact Hl|].
    symmetry. apply Nat.eqb_neq. lia.
  - split; assumption.
Qed.

Lemma step_subscribed id s e n topic :
  subscribed n topic s -> subscribed n topic (fst (step id s e)).
Proof.
  intros H. unfold step. destruct (exited s); [exact H|].
  destruct e as [input| |m r|m msg].
  - apply exec_subscribed. exact H.
  - apply exec_subscribed. exact H.
  - destruct (take m (pending s)) as [[k rest]|]; [|exact H].
    apply exec_subscribed. exact H.
  - destruct (lookup m (callbacks s)); [|exact H].
    apply exec_subscribed. exact H.
Qed.

Lemma run_subscribed id evs s n topic :
  subscribed n topic s -> subscribed n topic (fst (run id s evs)).
Proof.
  revert s. induction evs as [|e evs IH]; intros s H; [exact H|].
  cbn [run]. pose proof (step_subscribed id s e n topic H) as H1.
  destruct (step id s e) as [s1 out1]. specialize (IH s1 H1).
  destruct (run id s1 evs) as [s2 out2]. exact IH.
Qed.

Lemma run_app id l1 l2 s :
  fst (run id s (l1 ++ l2)) = fst (run id (fst (run id s l1)) l2).
Proof.
  revert s. induction l1 as [|e l1 IH]; intros s; [reflexivity|].
  cbn [app run]. destruct (step id s e) as [s1 out1]. specialize (IH s1).
  destruct (run id s1 (l1 ++ l2)) as [s2 out2].
  destruct (run id s1 l1) as [s3 out3]. exact IH.
Qed.

Lemma run_exited id evs s : exited s = true -> fst (run id s evs) = s.
Proof.
  intros H. induction evs as [|e evs IH]; [reflexivity|].
  cbn [run]. unfold step. rewrite H.
  destruct (run id s evs) as [s2 out2]. exact IH.
Qed.

Lemma sub_line_subscribed id s input topic args evs :
  split space (trim input) = lit "sub" :: topic :: args -> topic <> [] ->
  exited s = false ->
  subscribed (next_id s) topic (fst (run id s (Line input :: evs)))
  /\ (next_id s < next_id (fst (run id s (Line input :: evs))))%nat.
Proof.
  intros Hparse Hne Hlive.
  destruct (step_sub id s input topic args Hparse Hne Hlive) as [k Hstep].
  assert (Hsub : subscribed (next_id s) topic (fst (step id s (Line input)))).
  { rewrite Hstep. unfold subscribed. cbn [fst callbacks next_id lookup].
    rewrite Nat.eqb_refl. split; [reflexivity | lia]. }
  change (Line input :: evs) with ([Line input] ++ evs). rewrite run_app.
  assert (E : fst (run id s [Line input]) = fst (step id s (Line input))).
  { cbn [run]. destruct (step id s (Line input)). reflexivity. }
  rewrite E.
  pose proof (run_subscribed id evs _ _ _ Hsub) as H.
  split; [exact H|]. exact (proj2 H).
Qed.

Lemma delivered_subscribed id s n topic msg :
  subscribed n topic s -> exited s = false ->
  step id s (Delivered n msg) = (s, [received_line topic msg]).
Proof.
  intros [Hl _] Hlive. unfold step. rewrite Hlive, Hl. reflexivity.
Qed.

(** X8: every subscription keeps the topic of its own [sub] command under
    every schedule.  Whatever events come between two [sub] lines and after
    them (messages in any order, settlements of the subscribe calls or none,
    further lines), as long as the process is alive the two callbacks are
    distinct and a message handed to either one is printed under the topic
    of the line that made it, and printing leaves the state as it was. *)
Theorem subscriptions_keep_their_topics (id : identity) (s : state)
    (input1 input2 topic1 topic2 : jsstring) (args1 args2 : list jsstring)
    (evs1 evs2 : list event) :
  split space (trim input1) = lit "sub" :: topic1 :: args1 -> topic1 <> [] ->
  split space (trim input2) = lit "sub" :: topic2 :: args2 -> topic2 <> [] ->
  let s1 := fst (run id s (Line input1 :: evs1)) in
  let s2 := fst (run id s (Line input1 :: evs1 ++ Line input2 :: evs2)) in
  exited s = false ->
  exited s2 = false ->
  next_id s <> next_id s1
  /\ forall msg,
       step id s2 (Delivered (next_id s) msg) = (s2, [received_line topic1 msg])
       /\ step id s2 (Delivered (next_id s1) msg) =
            (s2, [received_line topic2 msg]).
Proof.
  intros Hp1 Hn1 Hp2 Hn2 s1 s2 Hlive Hlive2.
  assert (E : s2 = fst (run id s1 (Line input2 :: evs2))).
  { unfold s2, s1. rewrite app_comm_cons. apply run_app. }
  assert (Hlive1 : exited s1 = false).
  { destruct (exited s1) eqn:Hx; [|reflexivity].
    rewrite (run_exited id _ s1 Hx) in E. congruence. }
  destruct (sub_line_subscribed id s input1 topic1 args1 evs1 Hp1 Hn1 Hlive)
    as [Hsub1 Hlt1]. fold s1 in Hsub1, Hlt1.
  destruct (sub_line_subscribed id s1 input2 topic2 args2 evs2 Hp2 Hn2 Hlive1)
    as [Hsub2 _]. rewrite <- E in Hsub2.
  pose proof (run_subscribed id (Line input2 :: evs2) s1 _ _ Hsub1) as Hsub1'.
  rewrite <- E in Hsub1'.
  split; [lia|]. intros msg. split.
  - apply delivered_subscribed; assumption.
  - apply delivered_subscribed; assumption.
Qed.

Lemma subscriptions_keep_their_topics_witness :
  let hello := {| from := lit "QmA"; data := [104; 105] |} in
  let between := [Delivered 0 hello; Settled 0 (Resolved VUndefined)] in
  let after := [Delivered 1 hello; Line (lit "topics"); Delivered 0 hello] in
  let s2 :=
    fst (run sample_identity initial
           (Line (lit "sub news") :: between ++ Line (lit "sub chat") :: after)) in
  split space (trim (lit "sub news")) = lit "sub" :: lit "news" :: []
  /\ split space (trim (lit "sub chat")) = lit "sub" :: lit "chat" :: []
  /\ exited s2 = false
  /\ step sample_identity s2 (Delivered 0 hello) =
       (s2, [received_line (lit "news") hello])
  /\ step sample_identity s2 (Delivered 1 hello) =
       (s2, [received_line (lit "chat") hello]).
Proof.
  cbn zeta.
  split; [reflexivity|]. split; [reflexivity|]. split; [reflexivity|].
  destruct (subscriptions_keep_their_topics sample_identity initial
              (lit "sub news") (lit "sub chat") (lit "news") (lit "chat") [] []
              [Delivered 0 {| from := lit "QmA"; data := [104; 105] |};
               Settled 0 (Resolved VUndefined)]
              [Delivered 1 {| from := lit "QmA"; data := [104; 105] |};
               Line (lit "topics");
               Delivered 0 {| from := lit "QmA"; data := [104; 105] |}])
    as [_ H];
    [reflexivity | discriminate | reflexivity | discriminate
    | reflexivity | reflexivity |].
  exact (H {| from := lit "QmA"; data := [104; 105] |}).
Defined.

(** ** A stop that fails *)

(** X9: when [node.stop()] is rejected after [quit], the process does not
    exit: the rejection is printed as an error of the command, the prompt
    comes back and the console stays alive. *)
Theorem quit_survives_failed_stop (id : identity) (s : state)
    (input : jsstring) (args : list jsstring) (e : error) :
  split space (trim input) = lit "quit" :: args ->
  exited s = false ->
  run id s [Line input; Settled (next_id s) (Rejected e)] =
    (settled_state s,
     [Eff (console_log [AStr (lit "Shutting down...")]);
      NodeCall (next_id s) node_stop;
      failure_report "Error processing command:" e;
      Eff rl_prompt])
  /\ exited (settled_state s) = false.
Proof.
  intros Hparse Hlive. split; [|exact Hlive].
  dispatch Hparse Hlive.
  unfold log, await. cbn [bind try_catch exec register].
  rewrite settle_head by exact Hlive.
  unfold settled_state. rewrite Hlive. reflexivity.
Qed.

Lemma quit_survives_failed_stop_witness :
  split space (trim (lit "quit")) = lit "quit" :: []
  /\ exited initial = false
  /\ run sample_identity initial
       [Line (lit "quit"); Settled 0 (Rejected (NodeError (lit "busy")))] =
     (settled_state initial,
      [Eff (console_log [AStr (lit "Shutting down...")]);
       NodeCall 0 node_stop;
       failure_report "Error processing command:" (NodeError (lit "busy"));
       Eff rl_prompt])
  /\ exited (settled_state initial) = false.
Proof.
  split; [reflexivity|]. split; [reflexivity|].
  apply (quit_survives_failed_stop sample_identity initial (lit "quit") []
           (NodeError (lit "busy"))); reflexivity.
Defined.

(** ** Calls of the node *)

Lemma exec_node_calls t s :
  node_calls (snd (exec t s)) =
  match first_call t with Some _ => 1%nat | None => 0%nat end.
Proof.
  induction t as [a|e|o k IH|c k IH|code]; simpl.
  - reflexivity.
  - reflexivity.
  - destruct (exec k s) as [s' out]. exact IH.
  - reflexivity.
  - reflexivity.
Qed.

Lemma node_calls_app a b : node_calls (a ++ b) = (node_calls a + node_calls b)%nat.
Proof. unfold node_calls. rewrite filter_app, length_app. reflexivity. Qed.

Lemma step_node_calls id s e : calm s ->
  (node_calls (snd (step id s e)) <= if is_command_event e then 1 else 0)%nat.
Proof.
  intros Hs. unfold step. destruct (exited s) eqn:Hlive.
  { cbn. destruct (is_command_event e); lia. }
  destruct e as [input| |n r|n msg]; cbn [is_command_event].
  - rewrite exec_node_calls. destruct (first_call _); lia.
  - rewrite exec_node_calls. destruct (first_call _); lia.
  - destruct (take n (pending s)) as [[k rest]|] eqn:Et; [|cbn; lia].
    destruct (take_Forall _ _ _ _ _ Et Hs) as [Hk Hrest].
    rewrite exec_node_calls, quiet_first_call by apply Hk. lia.
  - destruct (lookup n (callbacks s)); [|cbn; lia].
    rewrite exec_node_calls, quiet_first_call by apply onMessage_quiet. lia.
Qed.

(** X10: the node is called only on behalf of an input line or of SIGINT,
    at most once for each: a settled call or a delivered message never
    makes the program call the node, so a run makes no more calls than it
    has such events. *)
Theorem calls_only_on_command (id : identity) (evs : list event) :
  (node_calls (snd (run id initial evs)) <= command_events evs)%nat.
Proof.
  assert (Hinit : calm initial) by constructor.
  revert Hinit. generalize initial.
  induction evs as [|e evs IH]; intros s Hs; [cbn; lia|].
  cbn [run]. pose proof (step_calm id s e Hs) as Hs1.
  pose proof (step_node_calls id s e Hs) as H1.
  destruct (step id s e) as [s1 out1]. cbn [fst snd] in *.
  specialize (IH s1 Hs1). destruct (run id s1 evs) as [s2 out2].
  cbn [snd] in *. rewrite node_calls_app.
  unfold command_events in *. cbn [filter].
  destruct (is_command_event e); cbn [List.length]; lia.
Qed.

(** ** Rounding is monotone *)

Lemma last_place_facts x : 0 <= x ->
  let e := Z.max 0 (Z.log2 x - 52) in
  0 <= e /\ x < 2 ^ (53 + e) /\ (0 < e -> 2 ^ (52 + e) <= x).
Proof.
  intros Hx e. unfold e. split; [lia|].
  destruct (Z.eq_dec x 0) as [->|Hx0].
  { cbn. split; [reflexivity | lia]. }
  pose proof (Z.log2_spec x ltac:(lia)) as [Hlo Hhi].
  pose proof (Z.log2_nonneg x) as Hl.
  destruct (Z.le_gt_cases (Z.log2 x) 52) as [Hs|Hb].
  - rewrite Z.max_l by lia. split; [|lia].
    apply Z.lt_le_trans with (1 := Hhi). apply Z.pow_le_mono_r; lia.
  - rewrite Z.max_r by lia. split.
    + replace (53 + (Z.log2 x - 52)) with (Z.succ (Z.log2 x)) by lia. exact Hhi.
    + intros _. replace (52 + (Z.log2 x - 52)) with (Z.log2 x) by lia. exact Hlo.
Qed.

Lemma last_place_mono x y : 0 <= x <= y ->
  Z.max 0 (Z.log2 x - 52) <= Z.max 0 (Z.log2 y - 52).
Proof.
  intros H. pose proof (Z.log2_le_mono x y ltac:(lia)). lia.
Qed.

(** The rounded value lies between the neighbours of the quotient. *)
Lemma round_shift_between p k : 0 <= k -> 0 <= p ->
  let e := Z.max 0 (Z.log2 (p / 2 ^ k) - 52) in
  p / 2 ^ (k + e) * 2 ^ e <= Double.round_shift p k
  /\ Double.round_shift p k <= 2 ^ (53 + e)
  /\ (0 < e -> 2 ^ (52 + e) <= Double.round_shift p k).
Proof.
  intros Hk Hp e.
  assert (HK : 0 < 2 ^ k) by (apply Z.pow_pos_nonneg; lia).
  assert (Hx : 0 <= p / 2 ^ k) by (apply Z.div_pos; lia).
  destruct (last_place_facts (p / 2 ^ k) Hx) as (He & Hup & Hlow). fold e in He, Hup, Hlow.
  assert (HE : 0 < 2 ^ e) by (apply Z.pow_pos_nonneg; lia).
  assert (Hq : p / 2 ^ (k + e) = p / 2 ^ k / 2 ^ e).
  { rewrite Z.pow_add_r by lia. symmetry. apply Z.div_div; lia. }
  assert (Hqhi : p / 2 ^ (k + e) < 2 ^ 53).
  { rewrite Hq. apply Z.div_lt_upper_bound; [lia|].
    rewrite <- Z.pow_add_r by lia. replace (e + 53) with (53 + e) by lia. exact Hup. }
  assert (Hqlo : 0 < e -> 2 ^ 52 <= p / 2 ^ (k + e)).
  { intros H. rewrite Hq. apply Z.div_le_lower_bound; [lia|].
    rewrite <- Z.pow_add_r by lia. replace (e + 52) with (52 + e) by lia. auto. }
  assert (Hq0 : 0 <= p / 2 ^ (k + e))
    by (apply Z.div_pos; [lia | apply Z.pow_pos_nonneg; lia]).
  assert (H53 : 2 ^ (53 + e) = 2 ^ 53 * 2 ^ e) by (apply Z.pow_add_r; lia).
  assert (H52 : 2 ^ (52 + e) = 2 ^ 52 * 2 ^ e) by (apply Z.pow_add_r; lia).
  unfold Double.round_shift. fold e.
  destruct (Z.eqb_spec (k + e) 0) as [Hz|Hnz].
  { assert (k = 0) by lia. assert (e = 0) by lia. subst k.
    replace (0 + e) with 0 in * by lia.
    change (2 ^ 0) with 1 in *. rewrite Z.div_1_r in *.
    replace (2 ^ e) with 1 in * by (rewrite H0; reflexivity). lia. }
  set (q := p / 2 ^ (k + e)) in *.
  destruct ((2 ^ (k + e - 1) <? p mod 2 ^ (k + e))
            || ((p mod 2 ^ (k + e) =? 2 ^ (k + e - 1)) && Z.odd q)); nia.
Qed.

Lemma round_shift_mono p p' k : 0 <= k -> 0 <= p <= p' ->
  Double.round_shift p k <= Double.round_shift p' k.
Proof.
  intros Hk Hp.
  assert (HK : 0 < 2 ^ k) by (apply Z.pow_pos_nonneg; lia).
  assert (Hxx : 0 <= p / 2 ^ k <= p' / 2 ^ k).
  { split; [apply Z.div_pos; lia | apply Z.div_le_mono; lia]. }
  pose proof (last_place_mono _ _ Hxx) as Hee.
  destruct (round_shift_between p k Hk ltac:(lia)) as (_ & Hhi & _).
  destruct (round_shift_between p' k Hk ltac:(lia)) as (Hlo' & _ & Hbig').
  set (e := Z.max 0 (Z.log2 (p / 2 ^ k) - 52)) in *.
  set (e' := Z.max 0 (Z.log2 (p' / 2 ^ k) - 52)) in *.
  assert (He : 0 <= e) by (unfold e; lia).
  destruct (Z.eq_dec e e') as [Heq|Hneq].
  - clear Hhi Hlo' Hbig'. unfold Double.round_shift. fold e e'. rewrite <- Heq.
    destruct (Z.eqb_spec (k + e) 0) as [Hz|Hnz]; [lia|].
    assert (HD : 0 < 2 ^ (k + e)) by (apply Z.pow_pos_nonneg; lia).
    assert (HE : 0 < 2 ^ e) by (apply Z.pow_pos_nonneg; lia).
    pose proof (Z.div_mod p (2 ^ (k + e)) ltac:(lia)) as Hdm.
    pose proof (Z.div_mod p' (2 ^ (k + e)) ltac:(lia)) as Hdm'.
    pose proof (Z.mod_pos_bound p (2 ^ (k + e)) HD) as Hr.
    pose proof (Z.mod_pos_bound p' (2 ^ (k + e)) HD) as Hr'.
    pose proof (Z.div_le_mono p p' (2 ^ (k + e)) HD ltac:(lia)) as Hqq.
    set (q := p / 2 ^ (k + e)) in *. set (q' := p' / 2 ^ (k + e)) in *.
    set (r := p mod 2 ^ (k + e)) in *. set (r' := p' mod 2 ^ (k + e)) in *.
    set (half := 2 ^ (k + e - 1)) in *.
    destruct (Z.eq_dec q q') as [Hq|Hq].
    + rewrite <- Hq in *. assert (r <= r') by nia.
      destruct (Z.ltb_spec half r); destruct (Z.ltb_spec half r');
        destruct (Z.eqb_spec r half); destruct (Z.eqb_spec r' half);
        destruct (Z.odd q); cbn [orb andb]; nia.
    + assert (q + 1 <= q') by lia.
      destruct ((half <? r) || ((r =? half) && Z.odd q));
        destruct ((half <? r') || ((r' =? half) && Z.odd q')); nia.
  - assert (Hlt : e < e') by lia.
    apply Z.le_trans with (1 := Hhi).
    apply Z.le_trans with (2 := Hbig' ltac:(lia)).
    apply Z.pow_le_mono_r; lia.
Qed.

(** X11: [getRandomPort] is monotone in the random draw: a larger value of
    [Math.random()] never gives a smaller port. *)
Theorem getRandomPort_monotone (random random' min max : Z) :
  0 <= random <= random' -> 0 <= min <= max ->
  getRandomPort random min max <= getRandomPort random' min max.
Proof.
  intros Hr Hm. unfold getRandomPort, port_sum, Double.add, Double.mul,
    Double.sub, Double.floor.
  assert (Hw : 0 <= Double.round_shift (max - min) 0).
  { change 0 with (Double.round_shift 0 0) at 1.
    apply round_shift_mono; lia. }
  set (w := Double.round_shift (max - min) 0) in *.
  assert (H0 : 0 <= Double.round_shift (random * w) 1074).
  { change 0 with (Double.round_shift 0 1074) at 1.
    apply round_shift_mono; [lia | nia]. }
  assert (Hmul : Double.round_shift (random * w) 1074
                 <= Double.round_shift (random' * w) 1074).
  { apply round_shift_mono; [lia | nia]. }
  apply Z.div_le_mono; [exact scale_pos|].
  apply round_shift_mono; lia.
Qed.

Lemma getRandomPort_monotone_witness :
  0 <= 2 ^ 1072 <= 2 ^ 1073
  /\ 0 <= Double.of_int 4002 <= Double.of_int 4999
  /\ getRandomPort (2 ^ 1072) (Double.of_int 4002) (Double.of_int 4999)
     <= getRandomPort (2 ^ 1073) (Double.of_int 4002) (Double.of_int 4999).
Proof.
  assert (Hr : 0 <= 2 ^ 1072 <= 2 ^ 1073).
  { split; [apply Z.pow_nonneg; lia | apply Z.pow_le_mono_r; lia]. }
  assert (Hm : 0 <= Double.of_int 4002 <= Double.of_int 4999).
  { unfold Double.of_int. pose proof scale_pos. nia. }
  split; [exact Hr|]. split; [exact Hm|].
  exact (getRandomPort_monotone (2 ^ 1072) (2 ^ 1073) (Double.of_int 4002)
           (Double.of_int 4999) Hr Hm).
Defined.

Lemma of_int_range lo hi : 0 <= lo <= hi ->
  0 <= Double.of_int lo <= Double.of_int hi.
Proof. intros H. unfold Double.of_int. pose proof scale_pos. nia. Qed.

(** X12: in each of the four ranges of [main] the port stays strictly below
    [max] for every draw up to 1 - 5 * 2^-53, and is [max] for every draw
    from 1 - 4 * 2^-53 on: only the last four doubles below 1 give the upper
    end. *)
Theorem top_of_range_needs_last_doubles (lo hi random : Z) :
  In (lo, hi) port_ranges ->
  (0 <= random <= last_below_top ->
   lo <= getRandomPort random (Double.of_int lo) (Double.of_int hi) < hi)
  /\ (first_at_top <= random < Double.scale ->
      getRandomPort random (Double.of_int lo) (Double.of_int hi) = hi).
Proof.
  intros Hin.
  assert (Hlo : 0 <= lo <= hi /\ hi < 2 ^ 53
                /\ getRandomPort last_below_top (Double.of_int lo) (Double.of_int hi)
                   = hi - 1
                /\ getRandomPort first_at_top (Double.of_int lo) (Double.of_int hi)
                   = hi).
  { cbn [port_ranges In] in Hin.
    destruct Hin as [H|[H|[H|[H|[]]]]]; inversion H; subst;
      (split; [lia|]; split; [lia|]; split; vm_compute; reflexivity). }
  destruct Hlo as (Hr & Hhi & Hbelow & Htop).
  assert (Hfirst : 0 <= first_at_top) by (vm_compute; discriminate).
  assert (Hlast : last_below_top < Double.scale) by (vm_compute; reflexivity).
  split.
  - intros Hrandom.
    pose proof (getRandomPort_range random lo hi ltac:(lia) Hr Hhi) as Hrange.
    pose proof (getRandomPort_monotone random last_below_top (Double.of_int lo)
                  (Double.of_int hi) Hrandom (of_int_range lo hi Hr)) as Hmono.
    lia.
  - intros Hrandom.
    pose proof (getRandomPort_range random lo hi ltac:(lia) Hr Hhi) as Hrange.
    pose proof (getRandomPort_monotone first_at_top random (Double.of_int lo)
                  (Double.of_int hi) ltac:(lia) (of_int_range lo hi Hr)) as Hmono.
    lia.
Qed.

Lemma top_of_range_needs_last_doubles_witness :
  In (6000, 6999) port_ranges
  /\ 0 <= 2 ^ 1073 <= last_below_top
  /\ 6000 <= getRandomPort (2 ^ 1073) (Double.of_int 6000) (Double.of_int 6999) < 6999
  /\ first_at_top <= below_one < Double.scale
  /\ getRandomPort below_one (Double.of_int 6000) (Double.of_int 6999) = 6999.
Proof.
  assert (Hin : In (6000, 6999) port_ranges) by (right; right; left; reflexivity).
  assert (H1 : 0 <= 2 ^ 1073 <= last_below_top).
  { split; [apply Z.leb_le | apply Z.leb_le]; vm_compute; reflexivity. }
  assert (H2 : first_at_top <= below_one < Double.scale).
  { split; [apply Z.leb_le | apply Z.ltb_lt]; vm_compute; reflexivity. }
  destruct (top_of_range_needs_last_doubles 6000 6999 (2 ^ 1073) Hin) as [Hlow _].
  destruct (top_of_range_needs_last_doubles 6000 6999 below_one Hin) as [_ Htop].
  split; [exact Hin|]. split; [exact H1|]. split; [exact (Hlow H1)|].
  split; [exact H2 | exact (Htop H2)].
Defined.

(** ** Repository paths of different instances *)

(** X13: port sets with different swarm ports get different repository
    paths: equal paths force equal swarm ports. *)
Theorem repo_paths_differ_with_swarm_ports (p p' : PortSet) :
  repo (nodeOptions p) = repo (nodeOptions p') -> swarmPort p = swarmPort p'.
Proof.
  unfold nodeOptions, repoPath. cbn [repo]. intros H.
  apply app_inv_head in H. apply Number_toString_inj. exact H.
Qed.

Lemma repo_paths_differ_with_swarm_ports_witness :
  let p := {| swarmPort := 4321; wsPort := 5000; apiPort := 6000;
              gatewayPort := 7000 |} in
  let p' := {| swarmPort := 4321; wsPort := 5555; apiPort := 6666;
               gatewayPort := 7777 |} in
  repo (nodeOptions p) = repo (nodeOptions p') /\ swarmPort p = swarmPort p'.
Proof.
  split; [reflexivity|].
  apply (repo_paths_differ_with_swarm_ports
           {| swarmPort := 4321; wsPort := 5000; apiPort := 6000;
              gatewayPort := 7000 |}
           {| swarmPort := 4321; wsPort := 5555; apiPort := 6666;
              gatewayPort := 7777 |}).
  reflexivity.
Defined.

(** ** Start-up *)

(** When [create] or [node.id()] is rejected, [main] stops there: the
    error is printed by the handler of [main]'s promise; neither the list of
    commands nor the prompt is shown, and the node is not called. *)
Lemma failed_start_never_prompts (r1 r2 r3 r4 : Z) (s : state) (e : error)
    (identified : identity + error) :
  exec (launch r1 r2 r3 r4 (Some e) identified) s =
    (s, [starting; Eff (console_error [AErr e])])
  /\ exec (launch r1 r2 r3 r4 None (inr e)) s =
    (s, starting :: ready_lines (generatePorts r1 r2 r3 r4)
        ++ [Eff (console_error [AErr e])]).
Proof. split; reflexivity. Qed.

Lemma exec_launch r1 r2 r3 r4 id s :
  exists k,
    exec (launch r1 r2 r3 r4 None (inl id)) s =
      ({| next_id := S (next_id s); pending := (next_id s, k) :: pending s;
          callbacks := callbacks s; exited := exited s |},
       starting :: ready_lines (generatePorts r1 r2 r3 r4) ++ identity_lines id
       ++ [NodeCall (next_id s) swarm_peers])
    /\ forall r,
         exists line,
           k r = Emit line (fold_right (fun args t => Emit (console_log args) t)
                              prompt banner)
           /\ (forall e, r = Rejected e ->
                 line = console_error [AStr (lit "Failed to connect to swarm:"); AErr e])
           /\ (forall l, r = Resolved (VSwarmPeers l) ->
                 line = console_log [AStr (lit "Connected to");
                                     ANum (Z.of_nat (List.length l));
                                     AStr (lit "peers")]).
Proof.
  unfold launch, main. unfold log at 1 2 3 4 5 6 7 8 9.
  cbn [bind try_catch exec].
  rewrite (forEach_log_bind (id_addresses id) (fun a => [AStr (lit "- " ++ a)])).
  rewrite try_catch_emits, exec_emits.
  unfold log at 1. unfold await. cbn [bind try_catch exec register fst snd].
  eexists. split.
  - unfold ready_lines, identity_lines, starting, bullet. cbn [app].
    rewrite <- !app_assoc. reflexivity.
  - intros r. destruct r as [[|l|l]|e]; cbn [bind try_catch length_of log logError];
      eexists; (split; [reflexivity|]); split; intros; congruence.
Qed.

(** X14: once [create] and [node.id()] have succeeded, the console always
    opens: whatever [node.swarm.peers()] settles with, [main] prints one line
    about it (the number of peers, or the failure it caught), then the list
    of commands and the first prompt, and the process stays alive. *)
Theorem start_always_reaches_console (r1 r2 r3 r4 : Z) (id : identity)
    (s : state) (r : outcome) :
  exited s = false ->
  exists line,
    step id (fst (exec (launch r1 r2 r3 r4 None (inl id)) s))
      (Settled (next_id s) r) =
      (settled_state s, Eff line :: banner_lines ++ [Eff rl_prompt])
    /\ (forall e, r = Rejected e ->
          Eff line = failure_report "Failed to connect to swarm:" e)
    /\ (forall l, r = Resolved (VSwarmPeers l) ->
          Eff line = connected_line (Z.of_nat (List.length l))).
Proof.
  intros Hlive.
  destruct (exec_launch r1 r2 r3 r4 id s) as (k & Hexec & Hk).
  destruct (Hk r) as (line & Hline & Hrej & Hres).
  exists line. rewrite Hexec. cbn [fst].
  rewrite settle_head by exact Hlive. rewrite Hline.
  cbn [exec]. rewrite exec_emits. unfold settled_state. rewrite Hlive.
  split; [reflexivity|]. split.
  - intros e He. rewrite (Hrej e He). reflexivity.
  - intros l Hl. rewrite (Hres l Hl). reflexivity.
Qed.

Lemma start_always_reaches_console_witness :
  exited initial = false
  /\ exists line,
       step sample_identity
         (fst (exec (launch 0 0 0 0 None (inl sample_identity)) initial))
         (Settled 0 (Rejected TypeError)) =
         (settled_state initial, Eff line :: banner_lines ++ [Eff rl_prompt])
       /\ (forall e, Rejected TypeError = Rejected e ->
             Eff line = failure_report "Failed to connect to swarm:" e)
       /\ (forall l, Rejected TypeError = Resolved (VSwarmPeers l) ->
             Eff line = connected_line (Z.of_nat (List.length l))).
Proof.
  split; [reflexivity|].
  exact (start_always_reaches_console 0 0 0 0 sample_identity initial
           (Rejected TypeError) eq_refl).
Defined.

(** ** Any text through the codec *)

Lemma pair_induction (P : jsstring -> Prop) :
  P [] ->
  (forall c r, P r -> (forall d r', r = d :: r' -> P r') -> P (c :: r)) ->
  forall s, P s.
Proof.
  intros Hnil Hstep s.
  assert (H : P s /\ P (tl s)).
  { induction s as [|c r [Hr Htl]]; [split; exact Hnil|].
    split; [|exact Hr]. apply Hstep; [exact Hr|].
    intros d r' ->. exact Htl. }
  exact (proj1 H).
Qed.

Lemma scalar_replacement : scalar replacement.
Proof. unfold scalar, replacement. lia. Qed.

Lemma decode_replacement r :
  utf8_decode utf8_initial (utf8_encode_cp replacement ++ r) =
  replacement :: utf8_decode utf8_initial r.
Proof. rewrite decode_encode_cp by exact scalar_replacement. reflexivity. Qed.

Lemma not_surrogate_scalar c :
  0 <= c <= 0xFFFF -> isHighSurrogate c = false -> isLowSurrogate c = false ->
  scalar c.
Proof.
  intros Hc Hh Hl. unfold isHighSurrogate, isLowSurrogate, scalar in *.
  apply andb_false_iff in Hh, Hl.
  rewrite !Z.leb_gt in Hh, Hl. lia.
Qed.

Lemma pair_scalar c d :
  isHighSurrogate c = true -> isLowSurrogate d = true ->
  scalar (pair_code_point c d) /\ 0x10000 <= pair_code_point c d.
Proof.
  intros Hc Hd. apply (proj1 (surrogate_bounds c)) in Hc.
  apply (proj2 (surrogate_bounds d)) in Hd.
  unfold scalar, pair_code_point. rewrite Z.shiftl_mul_pow2 by lia.
  change (2 ^ 10) with 1024. lia.
Qed.

(** X15: whatever is typed, a subscriber that gets the published bytes back
    reads the message with every surrogate on its own replaced by U+FFFD and
    everything else unchanged: decoding after encoding is [toWellFormed]. *)
Theorem published_text_comes_back_well_formed (s : jsstring) :
  code_units16 s ->
  uint8ArrayToString (uint8ArrayFromString s) = toWellFormed s.
Proof.
  unfold uint8ArrayToString. induction s as [|c r IHr IHr'] using pair_induction;
    intros Hs; [reflexivity|].
  inversion Hs as [|? ? Hc Hr]; subst.
  cbn [uint8ArrayFromString toWellFormed].
  destruct (isHighSurrogate c) eqn:Ehigh.
  - destruct r as [|d r'].
    + rewrite <- (app_nil_r (utf8_encode_cp replacement)).
      rewrite decode_replacement. reflexivity.
    + destruct (isLowSurrogate d) eqn:Elow.
      * destruct (pair_scalar c d Ehigh Elow) as [Hsc _].
        rewrite decode_encode_cp by exact Hsc.
        rewrite code_units_pair
          by (apply surrogate_bounds; assumption).
        cbn [app]. f_equal. f_equal. apply (IHr' d r' eq_refl).
        inversion Hr; assumption.
      * rewrite decode_replacement. f_equal. apply IHr. exact Hr.
  - destruct (isLowSurrogate c) eqn:Elow.
    + rewrite decode_replacement. f_equal. apply IHr. exact Hr.
    + rewrite decode_encode_cp by (apply not_surrogate_scalar; assumption).
      rewrite code_units_bmp by lia. cbn [app]. f_equal. apply IHr. exact Hr.
Qed.

Lemma published_text_comes_back_well_formed_witness :
  let s := [0x68; 0xD800; 0x69; 0xDC00; 0xD83D; 0xDE00] in
  code_units16 s
  /\ uint8ArrayToString (uint8ArrayFromString s) = toWellFormed s.
Proof.
  assert (H : code_units16 [0x68; 0xD800; 0x69; 0xDC00; 0xD83D; 0xDE00])
    by (repeat constructor; lia).
  split; [exact H|].
  exact (published_text_comes_back_well_formed
           [0x68; 0xD800; 0x69; 0xDC00; 0xD83D; 0xDE00] H).
Defined.

Lemma encode_cp_octets cp : 0 <= cp < 0x110000 ->
  octets (utf8_encode_cp cp)
  /\ (cp < 0x10000 -> (1 <= List.length (utf8_encode_cp cp) <= 3)%nat)
  /\ (0x10000 <= cp -> List.length (utf8_encode_cp cp) = 4%nat).
Proof.
  intros Hcp. rewrite utf8_encode_cp_arith by exact Hcp. unfold encode_arith, octets.
  destruct (Z.ltb_spec cp 0x80); [|destruct (Z.ltb_spec cp 0x800);
    [|destruct (Z.ltb_spec cp 0x10000)]].
  all: (split; [repeat constructor; divmod | split; intros; cbn [List.length]; lia]).
Qed.

(** X16: the payload [publish] hands to the node is made of bytes (0 to
    255), at least one and at most three for every code unit of the
    message. *)
Theorem published_payload_is_bytes (s : jsstring) :
  code_units16 s ->
  octets (uint8ArrayFromString s)
  /\ (List.length s <= List.length (uint8ArrayFromString s) <= 3 * List.length s)%nat.
Proof.
  induction s as [|c r IHr IHr'] using pair_induction; intros Hs.
  { split; [constructor | cbn; lia]. }
  inversion Hs as [|? ? Hc Hr]; subst.
  destruct (IHr Hr) as [Hoct Hlen].
  destruct (encode_cp_octets replacement ltac:(unfold replacement; lia))
    as (Hro & Hrl & _).
  specialize (Hrl ltac:(unfold replacement; lia)).
  cbn [uint8ArrayFromString].
  destruct (isHighSurrogate c) eqn:Ehigh.
  - destruct r as [|d r'].
    + split; [exact Hro | cbn [List.length] in *; lia].
    + destruct (isLowSurrogate d) eqn:Elow.
      * destruct (pair_scalar c d Ehigh Elow) as [Hsc Hbig].
        destruct (encode_cp_octets (pair_code_point c d)
                    ltac:(unfold scalar in Hsc; lia)) as (Hpo & _ & Hpl).
        specialize (Hpl Hbig).
        assert (Hr' : code_units16 r') by (inversion Hr; assumption).
        destruct (IHr' d r' eq_refl Hr') as [Hoct' Hlen'].
        split; [apply Forall_app; split; assumption|].
        rewrite length_app. cbn [List.length] in *. lia.
      * split; [apply Forall_app; split; assumption|].
        rewrite length_app. cbn [List.length] in *. lia.
  - destruct (isLowSurrogate c) eqn:Elow.
    + split; [apply Forall_app; split; assumption|].
      rewrite length_app. cbn [List.length] in *. lia.
    + destruct (encode_cp_octets c ltac:(lia)) as (Hco & Hcl & _).
      specialize (Hcl ltac:(lia)).
      split; [apply Forall_app; split; assumption|].
      rewrite length_app. cbn [List.length] in *. lia.
Qed.

Lemma published_payload_is_bytes_witness :
  let s := [0x68; 0xE9; 0x20AC; 0xD83D; 0xDE00] in
  code_units16 s
  /\ octets (uint8ArrayFromString s)
  /\ (List.length s <= List.length (uint8ArrayFromString s) <= 3 * List.length s)%nat.
Proof.
  assert (H : code_units16 [0x68; 0xE9; 0x20AC; 0xD83D; 0xDE00])
    by (repeat constructor; lia).
  split; [exact H|].
  exact (published_payload_is_bytes [0x68; 0xE9; 0x20AC; 0xD83D; 0xDE00] H).
Defined.
